(** * Document status polling, upload validation and chat error handling

    A shallow embedding of the client of the document Q&A application
    (frontend/src/App.tsx, frontend/src/components/DocumentUpload.tsx and
    the shared type declarations), with the properties of its polling loop,
    its upload path and its chat handler.

    React state is modelled by explicit state passing: every
    [setAppState(prev => ...)] of the source is a function [AppState -> AppState].
    Asynchronous fetches are modelled by their outcome, which the handler
    receives as an argument; timers are modelled by a simulated clock in
    milliseconds. The built-in [String.prototype.trim] and
    [String.prototype.toLowerCase] are parameters of the definitions that
    return or search what they compute. *)

From stdpp Require Import base decidable option list strings gmap pretty.
From Stdlib Require Import ZArith Lia.
From Stdlib Require QArith_base.

Local Open Scope Z_scope.

(** ** Data model (types.ts) *)

(** [Document['status']] *)
Inductive Status : Type :=
  | Uploading | Processing | Chunking | Embedding | Ready | Error.

#[global] Instance Status_eq_dec : EqDecision Status.
Proof. solve_decision. Defined.

(** [Document['type']] *)
Inductive DocType : Type := Pdf | Txt.

(** [interface Document]; dates are milliseconds since the epoch, optional
    fields are options ([None] stands for [undefined] and JSON [null]). *)
Record Document : Type := mkDocument {
  doc_id : string;
  doc_name : string;
  doc_type : DocType;
  doc_size : Z;
  doc_uploadedAt : Z;
  doc_status : Status;
  doc_progress : option Z;
  doc_error : option string
}.

(** [interface DocumentSource]; the relevance score is a number that the
    client stores and never computes with. *)
Record DocumentSource : Type := mkDocumentSource {
  src_id : string;
  src_documentName : string;
  src_content : string;
  src_page : option Z;
  src_relevanceScore : option QArith_base.Q
}.

Inductive MessageType : Type := User | Assistant.

#[global] Instance MessageType_eq_dec : EqDecision MessageType.
Proof. solve_decision. Defined.

(** [interface ChatMessage] *)
Record ChatMessage : Type := mkChatMessage {
  msg_id : string;
  msg_type : MessageType;
  msg_content : string;
  msg_timestamp : Z;
  msg_sources : option (list DocumentSource)
}.

Inductive Tab : Type := ChatTab | SourcesTab.

(** [interface AppState] *)
Record AppState : Type := mkAppState {
  documents : list Document;
  messages : list ChatMessage;
  isLoading : bool;
  currentTab : Tab;
  selectedSources : list DocumentSource
}.

(** The initial value given to [useState] in [App]. *)
Definition initialAppState : AppState :=
  {| documents := []; messages := []; isLoading := false;
     currentTab := ChatTab; selectedSources := [] |}.

(** [{...prev, documents: ds}] *)
Definition withDocuments (prev : AppState) (ds : list Document) : AppState :=
  {| documents := ds; messages := messages prev; isLoading := isLoading prev;
     currentTab := currentTab prev; selectedSources := selectedSources prev |}.

(** ** Outcome of a [fetch]

    [NetworkError]: the promise returned by [fetch] rejects.
    [HttpResponse ok json]: a response arrived, [ok] is [response.ok] and
    [json] is the value [response.json()] resolves to ([None] when it
    rejects). *)
Inductive FetchResult (A : Type) : Type :=
  | NetworkError
  | HttpResponse (ok : bool) (json : option A).
Arguments NetworkError {A}.
Arguments HttpResponse {A} ok json.

(** ** The status poller (App.tsx, pollDocumentStatus) *)

(** Body of [GET /documents/{id}/status] as the poller reads it. *)
Record StatusData : Type := mkStatusData {
  sd_status : Status;
  sd_error : option string
}.

Definition maxPolls : nat := 30.

(** Delay handed to [setTimeout], in milliseconds. *)
Definition pollInterval : Z := 10000.

(** What a tick leaves in the timer queue. *)
Inductive Timer : Type :=
  | NoTimer
  | SetTimeout (delay : Z).

(** The object literal of the [map] callback in [poll]:
    [{...doc, status, error, progress: status === 'ready' ? 100 : 75}],
    applied to the entries whose id is [documentId]. *)
Definition updateDocStatus (documentId : string) (statusData : StatusData)
    (doc : Document) : Document :=
  if bool_decide (doc_id doc = documentId) then
    {| doc_id := doc_id doc; doc_name := doc_name doc; doc_type := doc_type doc;
       doc_size := doc_size doc; doc_uploadedAt := doc_uploadedAt doc;
       doc_status := sd_status statusData;
       doc_error := sd_error statusData;
       doc_progress :=
         Some (if bool_decide (sd_status statusData = Ready) then 100 else 75) |}
  else doc.

(** The [setAppState] of a successful tick. *)
Definition applyStatus (documentId : string) (statusData : StatusData)
    (prev : AppState) : AppState :=
  withDocuments prev (updateDocStatus documentId statusData <$> documents prev).

(** [statusData.status === 'ready' || statusData.status === 'error'] *)
Definition isTerminal (s : Status) : bool :=
  bool_decide (s = Ready) || bool_decide (s = Error).

(** One run of the closure [poll]: given the outcome of its fetch, the
    application state and the captured [pollCount], it returns the new state,
    the new [pollCount] and the timer it leaves. The [catch] branch only logs
    to the console. *)
Definition poll (documentId : string) (r : FetchResult StatusData)
    (prev : AppState) (pollCount : nat) : AppState * nat * Timer :=
  match r with
  | HttpResponse true (Some statusData) =>
      let st := applyStatus documentId statusData prev in
      if isTerminal (sd_status statusData) then (st, pollCount, NoTimer)
      else
        let pollCount' := S pollCount in
        if bool_decide (pollCount' < maxPolls)%nat
        then (st, pollCount', SetTimeout pollInterval)
        else (st, pollCount', NoTimer)
  | HttpResponse true None => (prev, pollCount, NoTimer)
  | HttpResponse false _ => (prev, pollCount, NoTimer)
  | NetworkError => (prev, pollCount, NoTimer)
  end.

(** A polling session observed on the simulated clock. *)
Record PollRun : Type := mkPollRun {
  run_state : AppState;          (* application state when the run ends *)
  run_pollCount : nat;           (* the closure's counter *)
  run_fetches : list Z;          (* clock value of every status fetch issued *)
  run_timer : option Z           (* due time of the pending tick, if any *)
}.

(** The chain of ticks of one session. [server k] is the outcome of the
    session's fetch number [k] (from 0); a fetch takes no simulated time.
    [fuel] bounds the number of ticks that are run: a run that ends with
    [run_timer = None] is a finished session. *)
Fixpoint pollSession (fuel : nat) (documentId : string)
    (server : nat -> FetchResult StatusData)
    (k : nat) (now : Z) (pollCount : nat) (st : AppState) : PollRun :=
  match fuel with
  | O => {| run_state := st; run_pollCount := pollCount;
            run_fetches := []; run_timer := Some now |}
  | S fuel' =>
      match poll documentId (server k) st pollCount with
      | (st', pollCount', NoTimer) =>
          {| run_state := st'; run_pollCount := pollCount';
             run_fetches := [now]; run_timer := None |}
      | (st', pollCount', SetTimeout delay) =>
          let r := pollSession fuel' documentId server (S k) (now + delay)
                     pollCount' st' in
          {| run_state := run_state r; run_pollCount := run_pollCount r;
             run_fetches := now :: run_fetches r; run_timer := run_timer r |}
      end
  end.

(** [pollDocumentStatus(documentId)]: [pollCount] starts at 0 and the first
    tick runs at once. *)
Definition pollDocumentStatus (fuel : nat) (documentId : string)
    (server : nat -> FetchResult StatusData) (now : Z) (st : AppState) : PollRun :=
  pollSession fuel documentId server 0 now 0 st.

(** ** String helpers used by the handlers *)

(** The lowering of the ASCII letters, every other byte kept. It is what the
    suffix test of [typeOfName] reads of [s.toLowerCase()]: no character
    other than an ASCII letter lowers to one of [.], [p], [d], [f], so the
    test gives the same answer on every name. *)
Definition lowerAscii (c : Ascii.ascii) : Ascii.ascii :=
  let n := Ascii.nat_of_ascii c in
  if ((65 <=? n) && (n <=? 90))%nat then Ascii.ascii_of_nat (n + 32) else c.

Fixpoint toLowerCase (s : string) : string :=
  match s with
  | EmptyString => EmptyString
  | String c s' => String (lowerAscii c) (toLowerCase s')
  end.

(** [s.endsWith(suffix)] *)
Definition endsWith (s suffix : string) : bool :=
  let n := String.length s in
  let m := String.length suffix in
  if (m <=? n)%nat then String.eqb (String.substring (n - m) m s) suffix else false.

(** [filename.toLowerCase().endsWith('.pdf') ? 'pdf' : 'txt'] *)
Definition typeOfName (filename : string) : DocType :=
  if endsWith (toLowerCase filename) ".pdf" then Pdf else Txt.

(** [a || b] on strings: the empty string is falsy. *)
Definition orElse (a : option string) (b : string) : string :=
  match a with
  | Some s => if bool_decide (s = "") then b else s
  | None => b
  end.

(** ** Loading the existing documents (App.tsx, loadExistingDocuments) *)

(** An element of [result.documents] in the body of [GET /documents]. *)
Record ServerDocument : Type := mkServerDocument {
  sdoc_id : string;
  sdoc_filename : string;
  sdoc_size : Z;
  sdoc_uploaded_at : Z;
  sdoc_status : Status;
  sdoc_error : option string
}.

(** The callback of [result.documents.map]. *)
Definition ofServerDocument (doc : ServerDocument) : Document :=
  {| doc_id := sdoc_id doc;
     doc_name := sdoc_filename doc;
     doc_type := typeOfName (sdoc_filename doc);
     doc_size := sdoc_size doc;
     doc_uploadedAt := sdoc_uploaded_at doc;
     doc_status := sdoc_status doc;
     doc_progress := Some (if bool_decide (sdoc_status doc = Ready) then 100 else 0);
     doc_error := sdoc_error doc |}.

Definition loadExistingDocuments (r : FetchResult (list ServerDocument))
    (prev : AppState) : AppState :=
  match r with
  | HttpResponse true (Some docs) => withDocuments prev (ofServerDocument <$> docs)
  | _ => prev
  end.

(** ** Uploading (App.tsx, handleDocumentUpload) *)

(** The fields of a browser [File] that the client reads. *)
Record File : Type := mkFile {
  file_name : string;
  file_type : string;
  file_size : Z
}.

(** What the clock and the random generator give while the optimistic entry
    of one file is built: [Date.now()] and
    [Math.random().toString(36).substr(2, 9)]. *)
Record Stamp : Type := mkStamp {
  stamp_now : Z;
  stamp_random : string
}.

Definition newDocument (stamp : Stamp) (file : File) : Document :=
  {| doc_id := pretty (stamp_now stamp) +:+ stamp_random stamp;
     doc_name := file_name file;
     doc_type := typeOfName (file_name file);
     doc_size := file_size file;
     doc_uploadedAt := stamp_now stamp;
     doc_status := Uploading;
     doc_progress := Some 0;
     doc_error := None |}.

(** [files.map(file => ...)]; [stamps i] is what file number [i] draws. *)
Definition newDocuments (stamps : nat -> Stamp) (files : list File) : list Document :=
  imap (fun i file => newDocument (stamps i) file) files.

(** First [setAppState]: the optimistic entries are appended. *)
Definition addNewDocuments (newDocs : list Document) (prev : AppState) : AppState :=
  withDocuments prev (documents prev ++ newDocs).

(** Body of [POST /upload]: [result.success] and the ids of
    [result.documents]. *)
Record UploadResult : Type := mkUploadResult {
  ur_success : bool;
  ur_documents : list string
}.

(** [{...doc, id: result.documents[index]?.id || doc.id,
      status: 'processing', progress: 50}] *)
Definition updatedDocument (result : UploadResult) (index : nat) (doc : Document)
    : Document :=
  {| doc_id := orElse (ur_documents result !! index) (doc_id doc);
     doc_name := doc_name doc; doc_type := doc_type doc;
     doc_size := doc_size doc; doc_uploadedAt := doc_uploadedAt doc;
     doc_status := Processing;
     doc_progress := Some 50;
     doc_error := doc_error doc |}.

Definition updatedDocuments (result : UploadResult) (newDocs : list Document)
    : list Document :=
  imap (updatedDocument result) newDocs.

(** [newDocuments.some(nd => nd.id === doc.id)] *)
Definition isNewDocument (newDocs : list Document) (doc : Document) : bool :=
  existsb (fun nd => bool_decide (doc_id nd = doc_id doc)) newDocs.

(** The [map] callback of the success branch: the predicate given to [find]
    does not look at its argument [ud]. *)
Definition replaceUploaded (newDocs updatedDocs : list Document) (doc : Document)
    : Document :=
  match List.find (fun _ud => isNewDocument newDocs doc) updatedDocs with
  | Some updatedDoc => updatedDoc
  | None => doc
  end.

(** [{...doc, status: 'error', error: message}] on the entries of this
    upload. *)
Definition markFailed (newDocs : list Document) (message : string) (doc : Document)
    : Document :=
  if isNewDocument newDocs doc then
    {| doc_id := doc_id doc; doc_name := doc_name doc; doc_type := doc_type doc;
       doc_size := doc_size doc; doc_uploadedAt := doc_uploadedAt doc;
       doc_status := Error;
       doc_progress := doc_progress doc;
       doc_error := Some message |}
  else doc.

(** The rest of [handleDocumentUpload] once the upload request has settled:
    the new state and the ids [pollDocumentStatus] is started with. *)
Definition uploadSettled (newDocs : list Document) (r : FetchResult UploadResult)
    (prev : AppState) : AppState * list string :=
  match r with
  | HttpResponse ok (Some result) =>
      if ok && ur_success result then
        let updatedDocs := updatedDocuments result newDocs in
        (withDocuments prev (replaceUploaded newDocs updatedDocs <$> documents prev),
         doc_id <$> updatedDocs)
      else
        (withDocuments prev (markFailed newDocs "Upload failed" <$> documents prev), [])
  | HttpResponse _ None | NetworkError =>
      (withDocuments prev (markFailed newDocs "Network error" <$> documents prev), [])
  end.

(** ** Deleting (App.tsx, handleDeleteDocument) *)
Definition handleDeleteDocument (documentId : string) (r : FetchResult unit)
    (prev : AppState) : AppState :=
  match r with
  | HttpResponse true _ =>
      withDocuments prev
        (filter (fun doc => doc_id doc <> documentId) (documents prev))
  | _ => prev
  end.

(** ** The drop zone (DocumentUpload.tsx) *)

Definition allowedTypes : list string := ["application/pdf"; "text/plain"].

Definition maxSize : Z := 10 * 1024 * 1024.

(** [validateFile]: the verdict and the value of [uploadError] afterwards. *)
Definition validateFile (file : File) (uploadError : option string)
    : bool * option string :=
  if negb (bool_decide (file_type file ∈ allowedTypes)) then
    (false, Some "Only PDF and TXT files are supported")
  else if bool_decide (file_size file > maxSize) then
    (false, Some "File size must be less than 10MB")
  else (true, uploadError).

(** [acceptedFiles.filter(validateFile)], threading [uploadError]. *)
Fixpoint filterValid (files : list File) (uploadError : option string)
    : list File * option string :=
  match files with
  | [] => ([], uploadError)
  | file :: rest =>
      let '(valid, uploadError') := validateFile file uploadError in
      let '(validFiles, uploadError'') := filterValid rest uploadError' in
      (if valid then file :: validFiles else validFiles, uploadError'')
  end.

(** An element of [rejectedFiles], as the drop zone library reports it. *)
Record FileRejection : Type := mkFileRejection {
  rej_file : File;
  rej_errors : list string
}.

(** Result of [onDrop]: the final [uploadError] and the argument of
    [onUpload] when it is called. *)
Record DropResult : Type := mkDropResult {
  drop_uploadError : option string;
  drop_uploaded : option (list File)
}.

Definition onDrop (acceptedFiles : list File) (rejectedFiles : list FileRejection)
    : DropResult :=
  if bool_decide (0 < length rejectedFiles)%nat then
    {| drop_uploadError :=
         Some "Some files were rejected. Please check file type and size.";
       drop_uploaded := None |}
  else
    let '(validFiles, uploadError) := filterValid acceptedFiles None in
    if bool_decide (0 < length validFiles)%nat then
      {| drop_uploadError := uploadError; drop_uploaded := Some validFiles |}
    else
      {| drop_uploadError := uploadError; drop_uploaded := None |}.

(** ** Chat (App.tsx, handleSendMessage) *)

(** Body of [POST /chat]. *)
Record ChatResult : Type := mkChatResult {
  cr_success : bool;
  cr_answer : string;
  cr_sources : list DocumentSource;
  cr_error : option string
}.

(** First [setAppState]: the user's message is appended and the loading
    flag raised. *)
Definition sendUserMessage (message : string) (now : Z) (prev : AppState) : AppState :=
  let userMessage :=
    {| msg_id := pretty now; msg_type := User; msg_content := message;
       msg_timestamp := now; msg_sources := None |} in
  {| documents := documents prev;
     messages := messages prev ++ [userMessage];
     isLoading := true;
     currentTab := currentTab prev;
     selectedSources := selectedSources prev |}.

(** [errorMessage] of the [else] and [catch] branches. *)
Definition errorChatMessage (now : Z) (content : string) : ChatMessage :=
  {| msg_id := pretty (now + 1); msg_type := Assistant; msg_content := content;
     msg_timestamp := now; msg_sources := None |}.

(** The rest of [handleSendMessage] once the chat request has settled. *)
Definition chatSettled (r : FetchResult ChatResult) (now : Z) (prev : AppState)
    : AppState :=
  match r with
  | HttpResponse ok (Some result) =>
      if ok && cr_success result then
        let assistantMessage :=
          {| msg_id := pretty (now + 1); msg_type := Assistant;
             msg_content := cr_answer result; msg_timestamp := now;
             msg_sources := Some (cr_sources result) |} in
        {| documents := documents prev;
           messages := messages prev ++ [assistantMessage];
           isLoading := false;
           currentTab := currentTab prev;
           selectedSources := cr_sources result |}
      else
        let errorMessage :=
          errorChatMessage now
            (orElse (cr_error result)
               "Sorry, I encountered an error. Please try again.") in
        {| documents := documents prev;
           messages := messages prev ++ [errorMessage];
           isLoading := false;
           currentTab := currentTab prev;
           selectedSources := selectedSources prev |}
  | HttpResponse _ None | NetworkError =>
      let errorMessage :=
        errorChatMessage now
          "Sorry, I couldn't connect to the server. Please try again." in
      {| documents := documents prev;
         messages := messages prev ++ [errorMessage];
         isLoading := false;
         currentTab := currentTab prev;
         selectedSources := selectedSources prev |}
  end.

(** [handleSendMessage(message)]: [now0] is the clock when the message is
    sent, [now1] when the request settles. *)
Definition handleSendMessage (message : string) (now0 : Z)
    (r : FetchResult ChatResult) (now1 : Z) (prev : AppState) : AppState :=
  chatSettled r now1 (sendUserMessage message now0 prev).

(** ** The client-side updates of the document list, as one transition *)

(** The updates of [documents] that the client performs: the initial load,
    the two steps of an upload and a poll tick. *)
Inductive ClientUpdate : Type :=
  | LoadDocuments (r : FetchResult (list ServerDocument))
  | UploadStarted (stamps : nat -> Stamp) (files : list File)
  | UploadSettled (stamps : nat -> Stamp) (files : list File)
      (r : FetchResult UploadResult)
  | PollTick (documentId : string) (r : FetchResult StatusData) (pollCount : nat).

Definition applyUpdate (u : ClientUpdate) (prev : AppState) : AppState :=
  match u with
  | LoadDocuments r => loadExistingDocuments r prev
  | UploadStarted stamps files => addNewDocuments (newDocuments stamps files) prev
  | UploadSettled stamps files r =>
      (uploadSettled (newDocuments stamps files) r prev).1
  | PollTick documentId r pollCount => (poll documentId r prev pollCount).1.1
  end.

(** ** Properties the statements below are about *)

(** The invariant of the data model: the error is set exactly in status
    [Error], the progress is 100 exactly in status [Ready]. *)
Definition documentInvariant (d : Document) : Prop :=
  (is_Some (doc_error d) ↔ doc_status d = Error) ∧
  (doc_progress d = Some 100 ↔ doc_status d = Ready).

#[global] Instance documentInvariant_dec d : Decision (documentInvariant d).
Proof. unfold documentInvariant. apply _. Defined.

(** A status body that carries an error exactly when its status is [Error]. *)
Definition consistentStatusData (sd : StatusData) : Prop :=
  is_Some (sd_error sd) ↔ sd_status sd = Error.

(** The same for an element of the document listing. *)
Definition consistentServerDocument (doc : ServerDocument) : Prop :=
  is_Some (sdoc_error doc) ↔ sdoc_status doc = Error.

(** The two halves of the invariant. *)
Definition errorInvariant (d : Document) : Prop :=
  is_Some (doc_error d) ↔ doc_status d = Error.

Definition progressInvariant (d : Document) : Prop :=
  doc_progress d = Some 100 ↔ doc_status d = Ready.

#[global] Instance errorInvariant_dec d : Decision (errorInvariant d).
Proof. unfold errorInvariant. apply _. Defined.

#[global] Instance progressInvariant_dec d : Decision (progressInvariant d).
Proof. unfold progressInvariant. apply _. Defined.

(** The server bodies a load mapping or a poll tick copies from carry an
    error exactly when their status is error. *)
Definition consistentBodies (u : ClientUpdate) : Prop :=
  match u with
  | LoadDocuments r =>
      ∀ docs, r = HttpResponse true (Some docs) →
        Forall consistentServerDocument docs
  | PollTick _ r _ =>
      ∀ sd, r = HttpResponse true (Some sd) → consistentStatusData sd
  | _ => True
  end.

(** [response.ok && result.success] of an upload that has settled. *)
Definition uploadAccepted (r : FetchResult UploadResult) : bool :=
  match r with
  | HttpResponse ok (Some result) => ok && ur_success result
  | _ => false
  end.

(** No ready entry carries the local id of a file of an upload that
    fails. *)
Definition failedUploadSparesReady (u : ClientUpdate) (prev : AppState) : Prop :=
  match u with
  | UploadSettled stamps files r =>
      uploadAccepted r = false →
      ∀ doc, doc ∈ documents prev →
        isNewDocument (newDocuments stamps files) doc = true →
        doc_status doc ≠ Ready
  | _ => True
  end.

#[global] Instance DocType_eq_dec : EqDecision DocType.
Proof. solve_decision. Defined.

#[global] Instance Document_eq_dec : EqDecision Document.
Proof. solve_decision. Defined.

(** The number of positions at which two lists of entries differ. *)
Fixpoint changedEntries (before after : list Document) : nat :=
  match before, after with
  | b :: before', a :: after' =>
      ((if bool_decide (a = b) then 0 else 1) + changedEntries before' after')%nat
  | _, _ => 0%nat
  end.

(** The reading of a successful tick as one that changes exactly one
    entry. *)
Definition mutatesExactlyOne (documentId : string) (sd : StatusData)
    (prev : AppState) (pollCount : nat) : Prop :=
  changedEntries (documents prev)
    (documents (poll documentId (HttpResponse true (Some sd)) prev pollCount).1.1)
  = 1%nat.

(** A fetch of the poller that did not deliver a status: the request was
    rejected, the response was not ok, or its body could not be read. *)
Definition fetchFailed (r : FetchResult StatusData) : bool :=
  match r with
  | HttpResponse true (Some _) => false
  | _ => true
  end.

(** The reading of a failed tick as one that is counted and followed by the
    next tick. *)
Definition failureTolerated (documentId : string) (r : FetchResult StatusData)
    (prev : AppState) (pollCount : nat) : Prop :=
  (poll documentId r prev pollCount).1.2 = S pollCount ∧
  (poll documentId r prev pollCount).2 = SetTimeout pollInterval.

(** The two checks of the upload validation. *)
Definition passesChecks (file : File) : bool :=
  bool_decide (file_type file ∈ allowedTypes) &&
  bool_decide (file_size file ≤ maxSize).

(** The message [validateFile] sets for a file, if any. *)
Definition validationMessage (file : File) : option string :=
  if negb (bool_decide (file_type file ∈ allowedTypes)) then
    Some "Only PDF and TXT files are supported"
  else if bool_decide (file_size file > maxSize) then
    Some "File size must be less than 10MB"
  else None.

(** ** The ingestion state machine of the server *)

Module Ingestion.

Inductive Failure : Type := InvalidTransition | NotFound.

(** Modelled from the spec: the transition relation of the server-side
    ingestion state machine, whose code is not among the sources. The
    non-error path is strictly linear, [Error] is reachable from every
    non-terminal state, and nothing leaves [Ready] or [Error]. *)
Definition reachable (current next : Status) : bool :=
  match current, next with
  | Uploading, Processing
  | Processing, Chunking
  | Chunking, Embedding
  | Embedding, Ready => true
  | (Uploading | Processing | Chunking | Embedding), Error => true
  | _, _ => false
  end.

(** Modelled from the spec: the store of the server, one record per
    document id, and [get(id)], which fails with [NotFound] for an absent
    id. *)
Definition get (id : string) (store : gmap string Document)
    : Failure + Document :=
  match store !! id with
  | Some d => inr d
  | None => inl NotFound
  end.

(** Modelled from the spec: [advance(id, nextStatus, progress?, error?)],
    which the processing pipeline calls. Setting [error] forces the target
    status to [Error]; the call fails with [InvalidTransition] when the
    target is not reachable from the current status, and then leaves the
    store as it was. The result is the store afterwards and the failure,
    if any. *)
Definition advance (id : string) (nextStatus : Status) (progress : option Z)
    (error : option string) (store : gmap string Document)
    : gmap string Document * option Failure :=
  match store !! id with
  | None => (store, Some NotFound)
  | Some d =>
      let target := if error is Some _ then Error else nextStatus in
      if reachable (doc_status d) target then
        (<[id := {| doc_id := doc_id d; doc_name := doc_name d;
                    doc_type := doc_type d; doc_size := doc_size d;
                    doc_uploadedAt := doc_uploadedAt d;
                    doc_status := target;
                    doc_progress := if progress is Some p then Some p
                                    else doc_progress d;
                    doc_error := error |}]> store, None)
      else (store, Some InvalidTransition)
  end.

End Ingestion.

(** The number of ticks of a session that are due when [elapsed]
    milliseconds have passed since its start: the first one is due at once,
    every further one an interval later. *)
Definition ticksDue (elapsed : Z) : nat :=
  Z.to_nat (elapsed / pollInterval + 1).

(** The session as it stands [elapsed] milliseconds after its start: the
    ticks due by then have run, and [run_timer] tells whether one is still
    to come. *)
Definition pollDocumentStatusAt (elapsed : Z) (documentId : string)
    (server : nat -> FetchResult StatusData) (now : Z) (st : AppState) : PollRun :=
  pollDocumentStatus (ticksDue elapsed) documentId server now st.

(** The clock values of [n] fetches that start at [now] and are one
    [pollInterval] apart. *)
Definition fetchTimes (now : Z) (n : nat) : list Z :=
  (λ i : nat, now + pollInterval * Z.of_nat i) <$> seq 0 n.

(** ** Concrete data used in the examples *)

Definition sampleDocument : Document :=
  {| doc_id := "doc-1"; doc_name := "policy.pdf"; doc_type := Pdf;
     doc_size := 2048; doc_uploadedAt := 0; doc_status := Processing;
     doc_progress := Some 50; doc_error := None |}.

Definition sampleState : AppState :=
  withDocuments initialAppState [sampleDocument].

(** A server on which the document is still uploading at the first two
    fetches and ready from the third. *)
Definition readyAtThirdFetch (k : nat) : StatusData :=
  {| sd_status := if (k <? 2)%nat then Uploading else Ready; sd_error := None |}.

(** A server on which the document stays in processing. *)
Definition stuckInProcessing (k : nat) : FetchResult StatusData :=
  HttpResponse true (Some {| sd_status := Processing; sd_error := None |}).

(** A server that fails once and would report ready afterwards. *)
Definition failsOnce (k : nat) : FetchResult StatusData :=
  match k with
  | O => NetworkError
  | S _ => HttpResponse true (Some {| sd_status := Ready; sd_error := None |})
  end.

(** A server on which the document has been deleted. *)
Definition deletedOnServer (k : nat) : FetchResult StatusData :=
  HttpResponse false None.

(** A status body with status error and no error message. *)
Definition errorWithoutMessage : StatusData :=
  {| sd_status := Error; sd_error := None |}.

Definition goodPdf : File :=
  {| file_name := "policy.pdf"; file_type := "application/pdf"; file_size := 2048 |}.

(** A PDF of 15 MiB. *)
Definition bigPdf : File :=
  {| file_name := "big.pdf"; file_type := "application/pdf";
     file_size := 15 * 1024 * 1024 |}.

Definition wordFile : File :=
  {| file_name := "notes.docx";
     file_type := "application/vnd.openxmlformats-officedocument.wordprocessingml.document";
     file_size := 4096 |}.

(** The drop zone's report for [wordFile]. *)
Definition wordRejection : FileRejection :=
  {| rej_file := wordFile; rej_errors := ["file-invalid-type"] |}.

(** A record of the server store that has reached [Ready]. *)
Definition readyDocument : Document :=
  {| doc_id := "doc-1"; doc_name := "policy.pdf"; doc_type := Pdf;
     doc_size := 2048; doc_uploadedAt := 0; doc_status := Ready;
     doc_progress := Some 100; doc_error := None |}.

(** An upload of two files that the server accepts. *)
Definition twoFiles : list File :=
  [goodPdf;
   {| file_name := "terms.txt"; file_type := "text/plain"; file_size := 512 |}].

Definition twoStamps (i : nat) : Stamp :=
  {| stamp_now := 1700000000000;
     stamp_random := if i is O then "k3j9x2m1a" else "p0q8w7e6r" |}.

Definition twoAccepted : UploadResult :=
  {| ur_success := true; ur_documents := ["srv-a"; "srv-b"] |}.

(** The reading of the upload validation in which every accepted file that
    passes both checks reaches the upload operation. *)
Definition forwardsValidFiles (acceptedFiles : list File)
    (rejectedFiles : list FileRejection) : Prop :=
  ∀ file, file ∈ acceptedFiles → passesChecks file = true →
    ∃ files, drop_uploaded (onDrop acceptedFiles rejectedFiles) = Some files ∧
             file ∈ files.

(** Closes one direction of an invariant on a concrete record. *)
Ltac close_direction :=
  first [ done | discriminate | by intros [? ?] | by intros [= ?] ].

(** ** The rest of App.tsx *)

(** [appState.documents.some(doc => doc.status === 'ready')], the
    [hasDocuments] property given to the chat. *)
Definition hasDocuments (st : AppState) : bool :=
  existsb (λ doc, bool_decide (doc_status doc = Ready)) (documents st).

(** ** Endpoints (config.ts) *)

(** [process.env.REACT_APP_API_URL || 'https://server-meet-minutes.fly.dev'];
    [env] is the environment variable. *)
Definition BASE_URL (env : option string) : string :=
  orElse env "https://server-meet-minutes.fly.dev".

Definition DOCUMENTS : string := "/documents".
Definition UPLOAD : string := "/upload".
Definition CHAT : string := "/chat".

(** [`/documents/${id}/status`] *)
Definition DOCUMENT_STATUS (id : string) : string :=
  "/documents/" +:+ id +:+ "/status".

(** [`/documents/${id}`] *)
Definition DELETE_DOCUMENT (id : string) : string :=
  "/documents/" +:+ id.

(** [`${API_CONFIG.BASE_URL}${endpoint}`] *)
Definition buildApiUrl (env : option string) (endpoint : string) : string :=
  BASE_URL env +:+ endpoint.

(** ** The document list (DocumentList.tsx) *)

(** The icon components the list renders. *)
Inductive Icon : Type := HiArrowPath | HiCheckCircle | HiExclamationCircle | HiClock.

(** [getStatusIcon]: the icon and its class. The [default] branches of the
    three switches are not reached for a value of the status type. *)
Definition getStatusIcon (status : Status) : Icon * string :=
  match status with
  | Uploading | Processing | Chunking | Embedding =>
      (HiArrowPath, "w-4 h-4 text-blue-500 animate-spin")
  | Ready => (HiCheckCircle, "w-4 h-4 text-green-500")
  | Error => (HiExclamationCircle, "w-4 h-4 text-red-500")
  end.

Definition getStatusText (status : Status) : string :=
  match status with
  | Uploading => "Uploading..."
  | Processing => "Processing..."
  | Chunking => "Chunking..."
  | Embedding => "Embedding..."
  | Ready => "Ready"
  | Error => "Error"
  end.

Definition getStatusColor (status : Status) : string :=
  match status with
  | Uploading | Processing | Chunking | Embedding => "text-blue-600"
  | Ready => "text-green-600"
  | Error => "text-red-600"
  end.

(** The colour classes of the status badge. *)
Definition statusBadgeClass (status : Status) : string :=
  if bool_decide (status = Ready) then "bg-green-100 text-green-700"
  else if bool_decide (status = Error) then "bg-red-100 text-red-700"
  else "bg-blue-100 text-blue-700".

(** The condition under which the progress bar of an entry is rendered. *)
Definition showsProgress (status : Status) : bool :=
  bool_decide (status = Uploading) || bool_decide (status = Processing)
  || bool_decide (status = Chunking) || bool_decide (status = Embedding).

(** [document.progress || 0], the width of the bar in percent. *)
Definition progressBarWidth (doc : Document) : Z :=
  default 0 (doc_progress doc).

(** ** The chat view (ChatInterface.tsx) *)

(** The rest of [s] after the prefix [p], if [s] starts with [p]. *)
Fixpoint stripPrefix (p s : string) : option string :=
  match p, s with
  | EmptyString, _ => Some s
  | String a p', String b s' =>
      if bool_decide (a = b) then stripPrefix p' s' else None
  | String _ _, EmptyString => None
  end.

(** [s] cut at the first occurrence of [sep]: what is before it and what is
    after it. *)
Fixpoint splitAtFirst (sep s : string) : option (string * string) :=
  match stripPrefix sep s with
  | Some rest => Some (EmptyString, rest)
  | None =>
      match s with
      | EmptyString => None
      | String c s' =>
          match splitAtFirst sep s' with
          | Some (before, after) => Some (String c before, after)
          | None => None
          end
      end
  end.

Record ParsedContent : Type := mkParsedContent {
  thinking : option string;
  mainContent : string
}.

(** [parseMessageContent]: the first match of
    [/<think>([\s\S]*?)<\/think>/], that is the first [<think>] and the
    first [</think>] after it, is cut out of the content. [trim] is the
    built-in [String.prototype.trim], taken as a parameter. *)
Definition parseMessageContent (trim : string → string) (content : string)
    : ParsedContent :=
  match splitAtFirst "<think>" content with
  | Some (before, rest) =>
      match splitAtFirst "</think>" rest with
      | Some (inner, after) =>
          {| thinking := Some (trim inner);
             mainContent := trim (before +:+ after) |}
      | None => {| thinking := None; mainContent := content |}
      end
  | None => {| thinking := None; mainContent := content |}
  end.

(** The text of a message bubble:
    [message.type === 'user' ? message.content : mainContent]. *)
Definition displayedText (trim : string → string) (message : ChatMessage) : string :=
  if bool_decide (msg_type message = User) then msg_content message
  else mainContent (parseMessageContent trim (msg_content message)).

(** [thinking && message.type === 'assistant']: the reasoning section is
    offered. *)
Definition offersThinking (trim : string → string) (message : ChatMessage) : bool :=
  match thinking (parseMessageContent trim (msg_content message)) with
  | Some t => negb (bool_decide (t = "")) && bool_decide (msg_type message = Assistant)
  | None => false
  end.

(** [toggleThinking]: [{...prev, [messageId]: !prev[messageId]}] *)
Definition toggleThinking (messageId : string) (prev : gmap string bool)
    : gmap string bool :=
  <[messageId := negb (default false (prev !! messageId))]> prev.

(** The truth value of [expandedThinking[message.id]]. *)
Definition isThinkingExpanded (expandedThinking : gmap string bool)
    (messageId : string) : bool :=
  default false (expandedThinking !! messageId).

(** [handleSubmit]: the message handed to [onSendMessage], if any, and the
    content of the input box afterwards. [trim] is the built-in
    [String.prototype.trim], taken as a parameter. *)
Definition handleSubmit (trim : string → string) (inputMessage : string)
    (isLoading : bool) : option string * string :=
  if negb (bool_decide (trim inputMessage = "")) && negb isLoading
  then (Some (trim inputMessage), "")
  else (None, inputMessage).

(** [handleSuggestedQuestion] *)
Definition handleSuggestedQuestion (question : string)
    (isLoading hasDocuments : bool) : option string :=
  if negb isLoading && hasDocuments then Some question else None.

(** ** The sources panel (SourcesPanel.tsx) *)

(** [s.includes(sub)] *)
Fixpoint includes (s sub : string) : bool :=
  String.prefix sub s ||
  match s with
  | EmptyString => false
  | String _ s' => includes s' sub
  end.

(** The predicate of [sources.filter]. [lower] is the built-in
    [String.prototype.toLowerCase], taken as a parameter. *)
Definition matchesSearch (lower : string → string) (searchTerm : string)
    (source : DocumentSource) : bool :=
  includes (lower (src_documentName source)) (lower searchTerm)
  || includes (lower (src_content source)) (lower searchTerm).

Definition filteredSources (lower : string → string)
    (sources : list DocumentSource) (searchTerm : string) : list DocumentSource :=
  List.filter (matchesSearch lower searchTerm) sources.

(** ** More concrete data *)

Definition oneStamp (i : nat) : Stamp :=
  {| stamp_now := 1700000000000; stamp_random := "k3j9x2m1a" |}.

Definition oneAccepted : UploadResult :=
  {| ur_success := true; ur_documents := ["srv-a"] |}.

(** An accepted upload whose response names no document, the case for which
    the handler falls back to the local id
    ([result.documents[index]?.id || doc.id]). *)
Definition acceptedWithoutIds : UploadResult :=
  {| ur_success := true; ur_documents := [] |}.

(** The state after an upload of [goodPdf] that the server accepted without
    naming an id, so that the entry kept its local id, and a tick that
    reported it ready. *)
Definition readyUnderLocalId : AppState :=
  applyUpdate
    (PollTick (pretty 1700000000000 +:+ "k3j9x2m1a")
       (HttpResponse true (Some {| sd_status := Ready; sd_error := None |})) 0)
    (applyUpdate
       (UploadSettled oneStamp [goodPdf] (HttpResponse true (Some acceptedWithoutIds)))
       (applyUpdate (UploadStarted oneStamp [goodPdf]) initialAppState)).

(** The state after an accepted upload of two files. *)
Definition afterTwoFiles : AppState :=
  applyUpdate
    (UploadSettled twoStamps twoFiles (HttpResponse true (Some twoAccepted)))
    (applyUpdate (UploadStarted twoStamps twoFiles) initialAppState).

(** The state after the entry of [sampleState] has been deleted. *)
Definition afterDelete : AppState :=
  handleDeleteDocument "doc-1" (HttpResponse true None) sampleState.

(** * Properties *)

(** ** One tick of the poller *)

Section PollTick.
Variables (documentId : string) (prev : AppState) (pollCount : nat).

Lemma poll_failed r :
  fetchFailed r = true → poll documentId r prev pollCount = (prev, pollCount, NoTimer).
Proof.
  destruct r as [|[] [sd|]]; simpl; intros Hf; try reflexivity. discriminate.
Qed.

Lemma poll_terminal sd :
  isTerminal (sd_status sd) = true →
  poll documentId (HttpResponse true (Some sd)) prev pollCount
  = (applyStatus documentId sd prev, pollCount, NoTimer).
Proof. intros Ht. simpl. by rewrite Ht. Qed.

Lemma poll_continue sd :
  isTerminal (sd_status sd) = false → (S pollCount < maxPolls)%nat →
  poll documentId (HttpResponse true (Some sd)) prev pollCount
  = (applyStatus documentId sd prev, S pollCount, SetTimeout pollInterval).
Proof. intros Ht Hlt. simpl. rewrite Ht. by rewrite bool_decide_eq_true_2. Qed.

Lemma poll_exhausted sd :
  isTerminal (sd_status sd) = false → (maxPolls ≤ S pollCount)%nat →
  poll documentId (HttpResponse true (Some sd)) prev pollCount
  = (applyStatus documentId sd prev, S pollCount, NoTimer).
Proof.
  intros Ht Hge. simpl. rewrite Ht. rewrite bool_decide_eq_false_2; [done | lia].
Qed.

(** A tick either stops or waits for exactly [pollInterval], and it never
    waits once the counter has reached [maxPolls]. *)
Lemma poll_timer r st' pollCount' delay :
  poll documentId r prev pollCount = (st', pollCount', SetTimeout delay) →
  delay = pollInterval ∧ pollCount' = S pollCount ∧ (S pollCount < maxPolls)%nat.
Proof.
  destruct r as [|[] [sd|]]; simpl; try discriminate.
  destruct (isTerminal (sd_status sd)); try discriminate.
  case_bool_decide; intros [= <- <- <-]; auto.
Qed.
End PollTick.

(** Writing a status twice keeps the last one. *)
Lemma updateDocStatus_overwrite documentId sd sd' doc :
  updateDocStatus documentId sd (updateDocStatus documentId sd' doc)
  = updateDocStatus documentId sd doc.
Proof.
  unfold updateDocStatus. destruct (bool_decide (doc_id doc = documentId)) eqn:E; simpl.
  - by rewrite E.
  - by rewrite E.
Qed.

Lemma applyStatus_overwrite documentId sd sd' st :
  applyStatus documentId sd (applyStatus documentId sd' st)
  = applyStatus documentId sd st.
Proof.
  unfold applyStatus, withDocuments; simpl. f_equal.
  rewrite <- list_fmap_compose. apply list_fmap_ext.
  intros i d _. apply updateDocStatus_overwrite.
Qed.

(** What the update of a successful tick leaves at each position: an entry
    of [documentId] carries the status and the error of the body and the
    progress computed from the status, every other entry is the one that was
    there. *)
Lemma applyStatus_lookup documentId sd st i doc :
  documents st !! i = Some doc →
  (doc_id doc ≠ documentId →
   documents (applyStatus documentId sd st) !! i = Some doc) ∧
  (doc_id doc = documentId →
   ∃ d', documents (applyStatus documentId sd st) !! i = Some d' ∧
         doc_status d' = sd_status sd ∧ doc_error d' = sd_error sd ∧
         doc_progress d'
         = Some (if bool_decide (sd_status sd = Ready) then 100 else 75) ∧
         doc_id d' = doc_id doc ∧ doc_name d' = doc_name doc ∧
         doc_type d' = doc_type doc ∧ doc_size d' = doc_size doc ∧
         doc_uploadedAt d' = doc_uploadedAt doc).
Proof.
  intros Hi. simpl. rewrite list_lookup_fmap, Hi. simpl. unfold updateDocStatus.
  split; intros Hid.
  - by rewrite bool_decide_eq_false_2.
  - rewrite bool_decide_eq_true_2 by done. eexists. split; [reflexivity|]. done.
Qed.

(** ** The clock values of a session *)

Lemma fetchTimes_one now : fetchTimes now 1 = [now].
Proof. unfold fetchTimes. simpl. f_equal. lia. Qed.

Lemma fetchTimes_S now n :
  fetchTimes now (S n) = now :: fetchTimes (now + pollInterval) n.
Proof.
  unfold fetchTimes. cbn [seq fmap list_fmap]. f_equal; [lia|].
  rewrite <- fmap_S_seq, <- list_fmap_compose.
  apply list_fmap_ext. intros i x _. simpl. lia.
Qed.

Lemma fetchTimes_length now n : length (fetchTimes now n) = n.
Proof. unfold fetchTimes. by rewrite length_fmap, length_seq. Qed.

Lemma fetchTimes_lookup now n i :
  (i < n)%nat → fetchTimes now n !! i = Some (now + pollInterval * Z.of_nat i).
Proof.
  intros Hi. unfold fetchTimes. rewrite list_lookup_fmap, lookup_seq_lt by done.
  done.
Qed.

(** ** A whole polling session *)

Section PollSession.
Variables (documentId : string) (server : nat -> FetchResult StatusData).

(** From a counter [pollCount], at most [maxPolls - pollCount] fetches are
    issued (one, if the counter is already at the limit). *)
Lemma pollSession_fetches_bound fuel k now pollCount st :
  (length (run_fetches (pollSession fuel documentId server k now pollCount st))
   ≤ Nat.max 1 (maxPolls - pollCount))%nat.
Proof.
  revert k now pollCount st.
  induction fuel as [|fuel IH]; intros k now pollCount st; simpl; [lia|].
  destruct (poll documentId (server k) st pollCount) as [[st' pc'] [|delay]] eqn:E;
    simpl; [lia|].
  apply poll_timer in E as (-> & -> & Hlt).
  specialize (IH (S k) (now + pollInterval) (S pollCount) st'). lia.
Qed.

(** Fetch number [i] of a session is issued [i] intervals after the first. *)
Lemma pollSession_fetch_times fuel k now pollCount st i t :
  run_fetches (pollSession fuel documentId server k now pollCount st) !! i = Some t →
  t = now + pollInterval * Z.of_nat i.
Proof.
  revert k now pollCount st i.
  induction fuel as [|fuel IH]; intros k now pollCount st i; simpl; [done|].
  destruct (poll documentId (server k) st pollCount) as [[st' pc'] [|delay]] eqn:E;
    simpl.
  - destruct i as [|i]; simpl; [|done]. intros [= <-]. lia.
  - apply poll_timer in E as (-> & -> & Hlt).
    destruct i as [|i]; simpl.
    + intros [= <-]. lia.
    + intros H. apply IH in H. lia.
Qed.

(** With enough fuel for the remaining budget the session ends. *)
Lemma pollSession_finishes fuel k now pollCount st :
  (Nat.max 1 (maxPolls - pollCount) ≤ fuel)%nat →
  run_timer (pollSession fuel documentId server k now pollCount st) = None.
Proof.
  revert k now pollCount st.
  induction fuel as [|fuel IH]; intros k now pollCount st Hf; simpl; [lia|].
  destruct (poll documentId (server k) st pollCount) as [[st' pc'] [|delay]] eqn:E;
    simpl; [done|].
  apply poll_timer in E as (-> & -> & Hlt).
  apply IH. lia.
Qed.

(** A finished session is not changed by more fuel. *)
Lemma pollSession_fuel_stable fuel fuel' k now pollCount st :
  run_timer (pollSession fuel documentId server k now pollCount st) = None →
  (fuel ≤ fuel')%nat →
  pollSession fuel' documentId server k now pollCount st
  = pollSession fuel documentId server k now pollCount st.
Proof.
  revert fuel' k now pollCount st.
  induction fuel as [|fuel IH]; intros fuel' k now pollCount st; simpl; [done|].
  intros Hdone Hle. destruct fuel' as [|fuel']; [lia|]. simpl.
  destruct (poll documentId (server k) st pollCount) as [[st' pc'] [|delay]] eqn:E;
    simpl in *; [done|].
  rewrite (IH fuel'); [done | exact Hdone | lia].
Qed.

(** [m] ticks in a row that fetch a non-terminal status, then a terminal
    one: the session issues [m + 1] fetches and keeps the terminal status. *)
Lemma pollSession_until_terminal (sds : nat -> StatusData) m :
  ∀ fuel k now pollCount st,
  (pollCount + m < maxPolls)%nat → (m < fuel)%nat →
  (∀ i, (i ≤ m)%nat → server (k + i)%nat = HttpResponse true (Some (sds (k + i)%nat))) →
  (∀ i, (i < m)%nat → isTerminal (sd_status (sds (k + i)%nat)) = false) →
  isTerminal (sd_status (sds (k + m)%nat)) = true →
  pollSession fuel documentId server k now pollCount st
  = {| run_state := applyStatus documentId (sds (k + m)%nat) st;
       run_pollCount := (pollCount + m)%nat;
       run_fetches := fetchTimes now (S m);
       run_timer := None |}.
Proof.
  induction m as [|m IH]; intros fuel k now pollCount st Hpc Hfuel Hok Hnt Ht;
    (destruct fuel as [|fuel]; [lia|]);
    pose proof (Hok 0%nat ltac:(lia)) as H0;
    rewrite Nat.add_0_r in *; cbn [pollSession]; rewrite H0.
  - rewrite poll_terminal by done. by rewrite fetchTimes_one, Nat.add_0_r.
  - rewrite poll_continue; [| rewrite <- (Nat.add_0_r k); apply Hnt; lia | lia].
    rewrite (IH fuel (S k) (now + pollInterval) (S pollCount)); try lia.
    + cbn [run_state run_pollCount run_fetches run_timer].
      rewrite applyStatus_overwrite, (fetchTimes_S now (S m)).
      by rewrite !Nat.add_succ_r.
    + intros i Hi. replace (S k + i)%nat with (k + S i)%nat by lia. apply Hok. lia.
    + intros i Hi. replace (S k + i)%nat with (k + S i)%nat by lia. apply Hnt. lia.
    + by replace (S k + m)%nat with (k + S m)%nat by lia.
Qed.

(** Ticks that all fetch a non-terminal status, up to the budget: the
    session issues the [m + 1] fetches that are left and stops. *)
Lemma pollSession_until_exhausted (sds : nat -> StatusData) m :
  ∀ fuel k now pollCount st,
  (pollCount + S m = maxPolls)%nat → (m < fuel)%nat →
  (∀ i, (i ≤ m)%nat → server (k + i)%nat = HttpResponse true (Some (sds (k + i)%nat))) →
  (∀ i, (i ≤ m)%nat → isTerminal (sd_status (sds (k + i)%nat)) = false) →
  pollSession fuel documentId server k now pollCount st
  = {| run_state := applyStatus documentId (sds (k + m)%nat) st;
       run_pollCount := maxPolls;
       run_fetches := fetchTimes now (S m);
       run_timer := None |}.
Proof.
  induction m as [|m IH]; intros fuel k now pollCount st Hpc Hfuel Hok Hnt;
    (destruct fuel as [|fuel]; [lia|]);
    pose proof (Hok 0%nat ltac:(lia)) as H0;
    pose proof (Hnt 0%nat ltac:(lia)) as H1;
    rewrite Nat.add_0_r in *; cbn [pollSession]; rewrite H0.
  - rewrite poll_exhausted; [| done | lia].
    rewrite fetchTimes_one. f_equal. lia.
  - rewrite poll_continue; [| done | lia].
    rewrite (IH fuel (S k) (now + pollInterval) (S pollCount)); try lia.
    + cbn [run_state run_pollCount run_fetches run_timer].
      rewrite applyStatus_overwrite, (fetchTimes_S now (S m)).
      by rewrite !Nat.add_succ_r.
    + intros i Hi. replace (S k + i)%nat with (k + S i)%nat by lia. apply Hok. lia.
    + intros i Hi. replace (S k + i)%nat with (k + S i)%nat by lia. apply Hnt. lia.
Qed.
End PollSession.

(** ** The poller: statements on failed fetches *)

(** C1, as the specification words it, does not hold: a tick whose fetch is
    rejected, or answered with a server error, is neither counted nor
    followed by another tick. *)
Lemma poll_failure_not_tolerated :
  ¬ failureTolerated "doc-1" NetworkError sampleState 0 ∧
  ¬ failureTolerated "doc-1" (HttpResponse false None) sampleState 0 ∧
  run_fetches (pollDocumentStatus maxPolls "doc-1" failsOnce 0 sampleState) = [0].
Proof.
  split; [|split].
  - intros [Hcount _]. simpl in Hcount. discriminate.
  - intros [Hcount _]. simpl in Hcount. discriminate.
  - reflexivity.
Qed.

(** C1, amended: a tick whose status fetch fails (the request is rejected,
    the response is not ok, or its body cannot be read) changes no document,
    leaves the attempt counter as it was and sets no timer, so the session
    ends at that tick with this fetch as its last one. *)
Theorem poll_failure_ends_session documentId server k now pollCount st fuel :
  fetchFailed (server k) = true →
  poll documentId (server k) st pollCount = (st, pollCount, NoTimer) ∧
  pollSession (S fuel) documentId server k now pollCount st
  = {| run_state := st; run_pollCount := pollCount;
       run_fetches := [now]; run_timer := None |}.
Proof.
  intros Hf. split.
  - by apply poll_failed.
  - cbn [pollSession]. by rewrite poll_failed.
Qed.

Lemma poll_failure_ends_session_witness :
  fetchFailed (failsOnce 0) = true ∧
  pollSession 30 "doc-1" failsOnce 0 0 0 sampleState
  = {| run_state := sampleState; run_pollCount := 0;
       run_fetches := [0]; run_timer := None |}.
Proof.
  split; [reflexivity|].
  apply (poll_failure_ends_session "doc-1" failsOnce 0 0 0 sampleState 29).
  reflexivity.
Defined.

(** C10: a tick that receives a response with [ok] false (such as the 404
    of a deleted document) leaves the application state as it was, does not
    increment the attempt counter and sets no timer; the session ends there
    and nothing is written to the document. *)
Theorem poll_not_ok_stops documentId server k json now pollCount st fuel :
  server k = HttpResponse false json →
  poll documentId (server k) st pollCount = (st, pollCount, NoTimer) ∧
  run_state (pollSession (S fuel) documentId server k now pollCount st) = st ∧
  run_pollCount (pollSession (S fuel) documentId server k now pollCount st) = pollCount ∧
  run_fetches (pollSession (S fuel) documentId server k now pollCount st) = [now] ∧
  run_timer (pollSession (S fuel) documentId server k now pollCount st) = None.
Proof.
  intros Hr. cbn [pollSession]. rewrite Hr. simpl. done.
Qed.

Lemma poll_not_ok_stops_witness :
  deletedOnServer 3 = HttpResponse false None ∧
  poll "doc-1" (deletedOnServer 3) sampleState 3 = (sampleState, 3%nat, NoTimer).
Proof.
  split; [reflexivity|].
  apply (poll_not_ok_stops "doc-1" deletedOnServer 3 None 30000 3 sampleState 0).
  reflexivity.
Defined.

(** ** The poller: interval and budget *)

(** C2: whatever the server answers, fetch number [i] of a session is issued
    exactly [i] intervals of 10 seconds after the first one, the session
    issues at most 30 fetches, and it has ended once 30 ticks have run. *)
Theorem poll_interval_and_budget documentId server now st fuel :
  pollInterval = 10 * 1000 ∧ maxPolls = 30%nat ∧
  (length (run_fetches (pollDocumentStatus fuel documentId server now st))
   ≤ maxPolls)%nat ∧
  (∀ i t, run_fetches (pollDocumentStatus fuel documentId server now st) !! i = Some t →
          t = now + pollInterval * Z.of_nat i) ∧
  run_timer (pollDocumentStatus maxPolls documentId server now st) = None ∧
  ((maxPolls ≤ fuel)%nat →
   pollDocumentStatus fuel documentId server now st
   = pollDocumentStatus maxPolls documentId server now st).
Proof.
  unfold pollDocumentStatus.
  assert (Hdone : run_timer (pollSession maxPolls documentId server 0 now 0 st) = None)
    by (apply pollSession_finishes; unfold maxPolls; lia).
  repeat split; try done.
  - pose proof (pollSession_fetches_bound documentId server fuel 0 now 0 st) as H.
    unfold maxPolls in *. lia.
  - apply pollSession_fetch_times.
  - intros Hle. by apply pollSession_fuel_stable.
Qed.

(** ** The poller: terminal status *)

(** C3: when the first [n] fetches report a non-terminal status and the next
    one a terminal status ([Ready] or [Error]), the session has issued
    exactly [n + 1] fetches, 10 seconds apart, and leaves no timer. Every
    entry of [documentId] then carries the terminal status, the error of that
    body and the progress computed from the status (100 for ready), and every
    other entry is as it was; the state is the one the last tick's update
    gives. *)
Theorem poll_stops_on_terminal documentId server (sds : nat -> StatusData) n now st fuel :
  (n < maxPolls)%nat → (n < fuel)%nat →
  (∀ i, (i ≤ n)%nat → server i = HttpResponse true (Some (sds i))) →
  (∀ i, (i < n)%nat → isTerminal (sd_status (sds i)) = false) →
  isTerminal (sd_status (sds n)) = true →
  run_state (pollDocumentStatus fuel documentId server now st)
  = applyStatus documentId (sds n) st ∧
  run_fetches (pollDocumentStatus fuel documentId server now st)
  = fetchTimes now (S n) ∧
  length (run_fetches (pollDocumentStatus fuel documentId server now st)) = S n ∧
  run_timer (pollDocumentStatus fuel documentId server now st) = None ∧
  length (documents (run_state (pollDocumentStatus fuel documentId server now st)))
  = length (documents st) ∧
  (∀ i doc, documents st !! i = Some doc → doc_id doc = documentId →
     ∃ d', documents (run_state (pollDocumentStatus fuel documentId server now st)) !! i
           = Some d' ∧
           doc_status d' = sd_status (sds n) ∧
           (doc_status d' = Ready ∨ doc_status d' = Error) ∧
           doc_error d' = sd_error (sds n) ∧
           doc_progress d'
           = Some (if bool_decide (sd_status (sds n) = Ready) then 100 else 75) ∧
           doc_id d' = doc_id doc ∧ doc_name d' = doc_name doc) ∧
  (∀ i doc, documents st !! i = Some doc → doc_id doc ≠ documentId →
     documents (run_state (pollDocumentStatus fuel documentId server now st)) !! i
     = Some doc).
Proof.
  intros Hn Hfuel Hok Hnt Ht. unfold pollDocumentStatus.
  rewrite (pollSession_until_terminal documentId server sds n fuel 0 now 0 st);
    try done.
  cbn [run_state run_fetches run_timer]. rewrite Nat.add_0_l.
  split; [done|]. split; [done|]. split; [by rewrite fetchTimes_length|].
  split; [done|]. split; [by simpl; rewrite length_fmap|]. split.
  - intros i doc Hi Hid.
    destruct (proj2 (applyStatus_lookup documentId (sds n) st i doc Hi) Hid)
      as (d' & Hd' & Hs & He & Hp & Hid' & Hname & _).
    exists d'. split; [done|]. split; [done|]. split; [|done].
    rewrite Hs. unfold isTerminal in Ht. apply orb_true_iff in Ht as [Ht|Ht];
      apply bool_decide_eq_true in Ht; auto.
  - intros i doc Hi Hid.
    by apply (proj1 (applyStatus_lookup documentId (sds n) st i doc Hi)).
Qed.

(** The scenario of the specification: uploading at the first two fetches,
    ready at the third; exactly three fetches, 10 seconds apart, and the
    entry ends ready with progress 100. *)
Lemma poll_stops_on_terminal_witness :
  run_fetches (pollDocumentStatus maxPolls "doc-1"
               (λ k, HttpResponse true (Some (readyAtThirdFetch k))) 0 sampleState)
  = [0; 10000; 20000] ∧
  length (run_fetches (pollDocumentStatus maxPolls "doc-1"
               (λ k, HttpResponse true (Some (readyAtThirdFetch k))) 0 sampleState))
  = 3%nat ∧
  run_timer (pollDocumentStatus maxPolls "doc-1"
               (λ k, HttpResponse true (Some (readyAtThirdFetch k))) 0 sampleState)
  = None ∧
  ∃ d', documents (run_state (pollDocumentStatus maxPolls "doc-1"
               (λ k, HttpResponse true (Some (readyAtThirdFetch k))) 0 sampleState))
          !! 0%nat = Some d' ∧
        doc_status d' = Ready ∧ doc_error d' = None ∧ doc_progress d' = Some 100.
Proof.
  destruct (poll_stops_on_terminal "doc-1"
              (λ k, HttpResponse true (Some (readyAtThirdFetch k)))
              readyAtThirdFetch 2 0 sampleState maxPolls)
    as (_ & Hfetches & Hlength & Htimer & _ & Hentry & _).
  - unfold maxPolls. lia.
  - unfold maxPolls. lia.
  - intros i _. reflexivity.
  - intros [|[|i]] Hi; [reflexivity | reflexivity | lia].
  - reflexivity.
  - split; [exact Hfetches|]. split; [exact Hlength|]. split; [exact Htimer|].
    destruct (Hentry 0%nat sampleDocument eq_refl eq_refl)
      as (d' & Hd' & Hs & _ & He & Hp & _).
    exists d'. split; [exact Hd'|]. split; [exact Hs|]. split; [exact He | exact Hp].
Defined.

(** ** The poller: exhausted budget *)

(** A session whose fetches all report [Processing], run with fuel for the
    whole budget. *)
Lemma pollDocumentStatus_stuck documentId server (errs : nat -> option string)
    now st fuel :
  (maxPolls ≤ fuel)%nat →
  (∀ i, (i < maxPolls)%nat →
        server i = HttpResponse true
                     (Some {| sd_status := Processing; sd_error := errs i |})) →
  pollDocumentStatus fuel documentId server now st
  = {| run_state :=
         applyStatus documentId
           {| sd_status := Processing; sd_error := errs 29%nat |} st;
       run_pollCount := maxPolls;
       run_fetches := fetchTimes now 30;
       run_timer := None |}.
Proof.
  intros Hfuel Hok. unfold pollDocumentStatus.
  apply (pollSession_until_exhausted documentId server
           (λ i, {| sd_status := Processing; sd_error := errs i |})
           29 fuel 0 now 0 st).
  - unfold maxPolls. lia.
  - unfold maxPolls in Hfuel. lia.
  - intros i Hi. apply Hok. unfold maxPolls. lia.
  - intros i Hi. reflexivity.
Qed.

Lemma ticksDue_budget elapsed : 290 * 1000 ≤ elapsed → (maxPolls ≤ ticksDue elapsed)%nat.
Proof.
  intros He. unfold ticksDue, maxPolls, pollInterval.
  pose proof (Z.div_le_mono (290 * 1000) elapsed 10000 ltac:(lia) He) as Hdiv.
  change (290 * 1000 / 10000) with 29 in Hdiv. lia.
Qed.

(** C4: when all 30 fetches report [Processing], the session observed once
    300 simulated seconds have elapsed has stopped: it has issued its 30
    fetches, at 0, 10, ..., 290 seconds, it holds no timer, and it stays as
    it is from then on. The entries of [documentId] are left in [Processing]
    with the error field the server sent last (none, if the server sent
    none), and nothing else of the application state is touched. *)
Theorem poll_gives_up_silently documentId server (errs : nat -> option string) now st :
  (∀ i, (i < maxPolls)%nat →
        server i = HttpResponse true
                     (Some {| sd_status := Processing; sd_error := errs i |})) →
  run_timer (pollDocumentStatusAt (300 * 1000) documentId server now st) = None ∧
  run_fetches (pollDocumentStatusAt (300 * 1000) documentId server now st)
  = fetchTimes now 30 ∧
  length (run_fetches (pollDocumentStatusAt (300 * 1000) documentId server now st))
  = 30%nat ∧
  last (run_fetches (pollDocumentStatusAt (300 * 1000) documentId server now st))
  = Some (now + 290 * 1000) ∧
  (∀ elapsed, 300 * 1000 ≤ elapsed →
     pollDocumentStatusAt elapsed documentId server now st
     = pollDocumentStatusAt (300 * 1000) documentId server now st) ∧
  run_state (pollDocumentStatusAt (300 * 1000) documentId server now st)
  = applyStatus documentId {| sd_status := Processing; sd_error := errs 29%nat |} st ∧
  (∀ d, d ∈ documents
              (run_state (pollDocumentStatusAt (300 * 1000) documentId server now st)) →
        doc_id d = documentId →
        doc_status d = Processing ∧ doc_error d = errs 29%nat).
Proof.
  intros Hok. unfold pollDocumentStatusAt.
  assert (Hat : ∀ elapsed, 290 * 1000 ≤ elapsed →
            pollDocumentStatus (ticksDue elapsed) documentId server now st
            = {| run_state :=
                   applyStatus documentId
                     {| sd_status := Processing; sd_error := errs 29%nat |} st;
                 run_pollCount := maxPolls;
                 run_fetches := fetchTimes now 30;
                 run_timer := None |}).
  { intros elapsed He. apply pollDocumentStatus_stuck; [|done].
    by apply ticksDue_budget. }
  rewrite (Hat (300 * 1000)) by lia. cbn [run_state run_fetches run_timer].
  split; [done|]. split; [done|]. split; [by rewrite fetchTimes_length|].
  split; [reflexivity|]. split; [|split; [done|]].
  - intros elapsed He. apply Hat. lia.
  - intros d Hd Hid. unfold applyStatus in Hd. simpl in Hd.
    apply list_elem_of_fmap in Hd as (d0 & -> & _). unfold updateDocStatus in *.
    destruct (bool_decide (doc_id d0 = documentId)) eqn:E; [done|].
    apply bool_decide_eq_false in E. done.
Qed.

Lemma poll_gives_up_silently_witness :
  run_timer (pollDocumentStatusAt 300000 "doc-1" stuckInProcessing 0 sampleState)
  = None ∧
  length (run_fetches
            (pollDocumentStatusAt 300000 "doc-1" stuckInProcessing 0 sampleState))
  = 30%nat ∧
  last (run_fetches
          (pollDocumentStatusAt 300000 "doc-1" stuckInProcessing 0 sampleState))
  = Some 290000 ∧
  doc_status <$> documents (run_state
     (pollDocumentStatusAt 300000 "doc-1" stuckInProcessing 0 sampleState))
  = [Processing] ∧
  doc_error <$> documents (run_state
     (pollDocumentStatusAt 300000 "doc-1" stuckInProcessing 0 sampleState))
  = [None].
Proof.
  destruct (poll_gives_up_silently "doc-1" stuckInProcessing (λ _, None) 0 sampleState)
    as (Htimer & _ & Hlength & Hlast & _ & Hstate & _).
  - intros i _. reflexivity.
  - change 300000 with (300 * 1000).
    rewrite Htimer, Hlength, Hlast, Hstate. repeat split; reflexivity.
Defined.

(** Before the last fetch the session is still waiting for a tick. *)
Lemma poll_stuck_pending_example :
  run_timer (pollDocumentStatusAt 289999 "doc-1" stuckInProcessing 0 sampleState)
  = Some 290000 ∧
  run_timer (pollDocumentStatusAt 290000 "doc-1" stuckInProcessing 0 sampleState)
  = None.
Proof. split; reflexivity. Qed.

(** ** The poller: frame of a tick *)

Lemma poll_ok_state documentId sd prev pollCount :
  (poll documentId (HttpResponse true (Some sd)) prev pollCount).1.1
  = applyStatus documentId sd prev.
Proof.
  simpl. destruct (isTerminal (sd_status sd)); [done|]. by case_bool_decide.
Qed.

Lemma updateDocStatus_other documentId sd doc :
  doc_id doc ≠ documentId → updateDocStatus documentId sd doc = doc.
Proof. intros Hne. unfold updateDocStatus. by rewrite bool_decide_eq_false_2. Qed.

Lemma updateDocStatus_id documentId sd doc :
  doc_id (updateDocStatus documentId sd doc) = doc_id doc.
Proof. unfold updateDocStatus. by case_bool_decide. Qed.

(** Updates for two different ids can be applied in either order. *)
Lemma updateDocStatus_comm id1 sd1 id2 sd2 doc :
  id1 ≠ id2 →
  updateDocStatus id1 sd1 (updateDocStatus id2 sd2 doc)
  = updateDocStatus id2 sd2 (updateDocStatus id1 sd1 doc).
Proof.
  intros Hne. destruct (decide (doc_id doc = id1)) as [H1|H1].
  - rewrite (updateDocStatus_other id2 sd2 doc) by congruence.
    rewrite (updateDocStatus_other id2 sd2 (updateDocStatus id1 sd1 doc)); [done|].
    rewrite updateDocStatus_id. congruence.
  - rewrite (updateDocStatus_other id1 sd1 doc) by done.
    rewrite (updateDocStatus_other id1 sd1 (updateDocStatus id2 sd2 doc)); [done|].
    by rewrite updateDocStatus_id.
Qed.

Lemma applyStatus_comm id1 sd1 id2 sd2 st :
  id1 ≠ id2 →
  applyStatus id1 sd1 (applyStatus id2 sd2 st)
  = applyStatus id2 sd2 (applyStatus id1 sd1 st).
Proof.
  intros Hne. unfold applyStatus, withDocuments. simpl. f_equal.
  rewrite <- !list_fmap_compose. apply list_fmap_ext.
  intros i d _. simpl. by apply updateDocStatus_comm.
Qed.

Lemma changedEntries_same (ds : list Document) : changedEntries ds ds = 0%nat.
Proof.
  induction ds as [|d ds IH]; [done|]. simpl. by rewrite bool_decide_eq_true_2.
Qed.

(** A tick changes at most as many entries as carry its id. *)
Lemma changedEntries_bound documentId sd (ds : list Document) :
  (changedEntries ds (updateDocStatus documentId sd <$> ds)
   ≤ length (filter (λ doc, doc_id doc = documentId) ds))%nat.
Proof.
  induction ds as [|d ds IH]; [done|].
  rewrite fmap_cons, filter_cons. cbn [changedEntries].
  destruct (decide (doc_id d = documentId)) as [Hid|Hid].
  - simpl. case_bool_decide; lia.
  - rewrite updateDocStatus_other by done.
    rewrite bool_decide_eq_true_2 by done. lia.
Qed.

(** C7, as the specification words it, does not hold: a successful tick
    changes as many entries as carry its id. After an accepted upload of two
    files the list holds the first id twice and the second not at all, so the
    tick for the first id changes two entries and the tick for the second
    none; and a tick whose status was fetched before the entry was deleted
    changes none. *)
Lemma poll_tick_not_exactly_one :
  ¬ mutatesExactlyOne "srv-a" {| sd_status := Ready; sd_error := None |}
      afterTwoFiles 0 ∧
  ¬ mutatesExactlyOne "srv-b" {| sd_status := Ready; sd_error := None |}
      afterTwoFiles 0 ∧
  ¬ mutatesExactlyOne "doc-1" {| sd_status := Ready; sd_error := None |}
      afterDelete 0 ∧
  changedEntries (documents afterTwoFiles)
    (documents
       (poll "srv-a" (HttpResponse true (Some {| sd_status := Ready; sd_error := None |}))
          afterTwoFiles 0).1.1) = 2%nat.
Proof.
  unfold mutatesExactlyOne. repeat split; by vm_compute.
Qed.

(** C7, amended: a successful tick for [documentId] keeps the list in shape
    and rewrites every entry whose id is [documentId], and no other: such an
    entry gets the status and the error of the body and the progress computed
    from the status and keeps its other fields, while every entry with
    another id and every other part of the application state is as it was.
    That is one entry when the list holds the id once, and none when it does
    not hold it; never more entries than carry the id. Sessions for different
    documents do not interfere: their updates commute, and the counter and
    timer a tick returns do not depend on the application state. *)
Theorem poll_tick_frame documentId sd prev pollCount :
  length (documents (poll documentId (HttpResponse true (Some sd)) prev pollCount).1.1)
  = length (documents prev) ∧
  (∀ i doc, documents prev !! i = Some doc → doc_id doc ≠ documentId →
     documents (poll documentId (HttpResponse true (Some sd)) prev pollCount).1.1 !! i
     = Some doc) ∧
  (∀ i doc, documents prev !! i = Some doc → doc_id doc = documentId →
     ∃ d',
       documents (poll documentId (HttpResponse true (Some sd)) prev pollCount).1.1 !! i
       = Some d' ∧
       doc_status d' = sd_status sd ∧ doc_error d' = sd_error sd ∧
       doc_progress d'
       = Some (if bool_decide (sd_status sd = Ready) then 100 else 75) ∧
       doc_id d' = doc_id doc ∧ doc_name d' = doc_name doc ∧
       doc_type d' = doc_type doc ∧ doc_size d' = doc_size doc ∧
       doc_uploadedAt d' = doc_uploadedAt doc) ∧
  (∀ i doc, documents prev !! i = Some doc → doc_id doc = documentId →
     (∀ j other, j ≠ i → documents prev !! j = Some other → doc_id other ≠ documentId) →
     ∀ j, j ≠ i →
       documents (poll documentId (HttpResponse true (Some sd)) prev pollCount).1.1 !! j
       = documents prev !! j) ∧
  ((∀ doc, doc ∈ documents prev → doc_id doc ≠ documentId) →
   (poll documentId (HttpResponse true (Some sd)) prev pollCount).1.1 = prev) ∧
  (changedEntries (documents prev)
     (documents (poll documentId (HttpResponse true (Some sd)) prev pollCount).1.1)
   ≤ length (filter (λ doc, doc_id doc = documentId) (documents prev)))%nat ∧
  (messages (poll documentId (HttpResponse true (Some sd)) prev pollCount).1.1
     = messages prev ∧
   isLoading (poll documentId (HttpResponse true (Some sd)) prev pollCount).1.1
     = isLoading prev ∧
   currentTab (poll documentId (HttpResponse true (Some sd)) prev pollCount).1.1
     = currentTab prev ∧
   selectedSources (poll documentId (HttpResponse true (Some sd)) prev pollCount).1.1
     = selectedSources prev) ∧
  (∀ otherId sd' pollCount', otherId ≠ documentId →
     (poll otherId (HttpResponse true (Some sd'))
        (poll documentId (HttpResponse true (Some sd)) prev pollCount).1.1
        pollCount').1.1
     = (poll documentId (HttpResponse true (Some sd))
          (poll otherId (HttpResponse true (Some sd')) prev pollCount').1.1
          pollCount).1.1) ∧
  (∀ r prev',
     (poll documentId r prev' pollCount).1.2 = (poll documentId r prev pollCount).1.2 ∧
     (poll documentId r prev' pollCount).2 = (poll documentId r prev pollCount).2).
Proof.
  rewrite poll_ok_state.
  assert (Hother : ∀ i doc, documents prev !! i = Some doc → doc_id doc ≠ documentId →
            documents (applyStatus documentId sd prev) !! i = Some doc).
  { intros i doc Hi.
    by apply (proj1 (applyStatus_lookup documentId sd prev i doc Hi)). }
  split; [simpl; by rewrite length_fmap|].
  split; [exact Hother|].
  split.
  { intros i doc Hi.
    by apply (proj2 (applyStatus_lookup documentId sd prev i doc Hi)). }
  split.
  { intros i doc Hi Hid Honly j Hj.
    destruct (documents prev !! j) as [other|] eqn:Ej.
    - apply Hother; [done|]. by apply (Honly j).
    - simpl. by rewrite list_lookup_fmap, Ej. }
  split.
  { intros Hnone. destruct prev as [ds ms l t ss]. unfold applyStatus, withDocuments.
    simpl in *. f_equal. rewrite <- (list_fmap_id ds) at 2.
    apply list_fmap_ext. intros i d Hi. simpl.
    apply updateDocStatus_other, Hnone. by eapply list_elem_of_lookup_2. }
  split; [apply changedEntries_bound|].
  split; [done|].
  split.
  - intros otherId sd' pollCount' Hne. rewrite !poll_ok_state.
    by apply applyStatus_comm.
  - intros r prev'. destruct r as [|[] [sd0|]]; simpl; try done.
    destruct (isTerminal (sd_status sd0)); [done|]. by case_bool_decide.
Qed.

(** The tick that reports ready for the single entry of [sampleState]. *)
Lemma poll_tick_frame_witness :
  ∃ d',
    documents
      (poll "doc-1" (HttpResponse true (Some {| sd_status := Ready; sd_error := None |}))
         sampleState 0).1.1 !! 0%nat = Some d' ∧
    doc_status d' = Ready ∧ doc_error d' = None ∧ doc_progress d' = Some 100.
Proof.
  destruct (poll_tick_frame "doc-1" {| sd_status := Ready; sd_error := None |}
              sampleState 0) as (_ & _ & Hentry & _).
  destruct (Hentry 0%nat sampleDocument eq_refl eq_refl)
    as (d' & Hd' & Hs & He & Hp & _).
  exists d'. split; [exact Hd'|]. split; [exact Hs|]. split; [exact He | exact Hp].
Defined.

(** How the list comes to hold an id twice: in the success branch of an
    upload the predicate given to [find] ignores its argument,
    so every optimistic entry of the upload is replaced by the first updated
    document. After an upload of two files the list holds two entries with
    the id of the first, sessions are started for both ids, and a tick for
    the first id rewrites both entries. *)
Lemma upload_two_files_entries :
  doc_id <$> documents
    (uploadSettled (newDocuments twoStamps twoFiles)
       (HttpResponse true (Some twoAccepted))
       (addNewDocuments (newDocuments twoStamps twoFiles) initialAppState)).1
  = ["srv-a"; "srv-a"] ∧
  (uploadSettled (newDocuments twoStamps twoFiles)
     (HttpResponse true (Some twoAccepted))
     (addNewDocuments (newDocuments twoStamps twoFiles) initialAppState)).2
  = ["srv-a"; "srv-b"] ∧
  doc_status <$> documents
    (applyStatus "srv-a" {| sd_status := Ready; sd_error := None |}
       (uploadSettled (newDocuments twoStamps twoFiles)
          (HttpResponse true (Some twoAccepted))
          (addNewDocuments (newDocuments twoStamps twoFiles) initialAppState)).1)
  = [Ready; Ready].
Proof. vm_compute. repeat split. Qed.

(** ** The invariant of a document under the client's updates *)

Lemma newDocuments_elem stamps files d :
  d ∈ newDocuments stamps files → ∃ stamp file, d = newDocument stamp file.
Proof.
  unfold newDocuments. intros Hd.
  apply elem_of_lookup_imap_1 in Hd as (i & file & -> & _). eauto.
Qed.

Lemma updatedDocuments_elem result stamps files d :
  d ∈ updatedDocuments result (newDocuments stamps files) →
  doc_status d = Processing ∧ doc_progress d = Some 50 ∧ doc_error d = None.
Proof.
  unfold updatedDocuments. intros Hd.
  apply elem_of_lookup_imap_1 in Hd as (i & nd & -> & Hi).
  apply list_elem_of_lookup_2, newDocuments_elem in Hi as (stamp & file & ->).
  done.
Qed.

(** The progress half, update by update. *)
Lemma progress_ofServerDocument sdoc : progressInvariant (ofServerDocument sdoc).
Proof.
  unfold progressInvariant. simpl. case_bool_decide; split; close_direction.
Qed.

Lemma progress_newDocument stamp file : progressInvariant (newDocument stamp file).
Proof. unfold progressInvariant. simpl. split; close_direction. Qed.

Lemma progress_updateDocStatus documentId sd doc :
  progressInvariant doc → progressInvariant (updateDocStatus documentId sd doc).
Proof.
  unfold progressInvariant. intros Hdoc. unfold updateDocStatus.
  case_bool_decide; [|done]. simpl. case_bool_decide; split; close_direction.
Qed.

Lemma progress_replaceUploaded result stamps files doc :
  progressInvariant doc →
  progressInvariant
    (replaceUploaded (newDocuments stamps files)
       (updatedDocuments result (newDocuments stamps files)) doc).
Proof.
  unfold progressInvariant. intros Hdoc. unfold replaceUploaded.
  destruct (List.find _ _) as [u|] eqn:E; [|done].
  apply find_some in E as [Hin _]. apply list_elem_of_In in Hin.
  apply updatedDocuments_elem in Hin as (Hs & Hp & _).
  rewrite Hs, Hp. split; close_direction.
Qed.

Lemma progress_markFailed newDocs message doc :
  progressInvariant doc →
  (isNewDocument newDocs doc = true → doc_status doc ≠ Ready) →
  progressInvariant (markFailed newDocs message doc).
Proof.
  unfold progressInvariant. intros Hdoc Hnr. unfold markFailed.
  destruct (isNewDocument newDocs doc); [|done].
  simpl. split; [|done]. intros H100. apply Hdoc in H100. by destruct Hnr.
Qed.

(** The error half, update by update. *)
Lemma error_ofServerDocument sdoc :
  consistentServerDocument sdoc → errorInvariant (ofServerDocument sdoc).
Proof. done. Qed.

Lemma error_newDocument stamp file : errorInvariant (newDocument stamp file).
Proof. unfold errorInvariant. simpl. split; close_direction. Qed.

Lemma error_updateDocStatus documentId sd doc :
  errorInvariant doc → consistentStatusData sd →
  errorInvariant (updateDocStatus documentId sd doc).
Proof.
  unfold errorInvariant. intros Hdoc Hsd. unfold updateDocStatus.
  by case_bool_decide.
Qed.

Lemma error_replaceUploaded result stamps files doc :
  errorInvariant doc →
  errorInvariant
    (replaceUploaded (newDocuments stamps files)
       (updatedDocuments result (newDocuments stamps files)) doc).
Proof.
  unfold errorInvariant. intros Hdoc. unfold replaceUploaded.
  destruct (List.find _ _) as [u|] eqn:E; [|done].
  apply find_some in E as [Hin _]. apply list_elem_of_In in Hin.
  apply updatedDocuments_elem in Hin as (Hs & _ & He).
  rewrite Hs, He. split; close_direction.
Qed.

Lemma error_markFailed newDocs message doc :
  errorInvariant doc → errorInvariant (markFailed newDocs message doc).
Proof.
  unfold errorInvariant. intros Hdoc. unfold markFailed.
  destruct (isNewDocument newDocs doc); [|done].
  simpl. split; [done|]. by eauto.
Qed.

(** C5, as the specification words it, does not hold, for either half. The
    poll tick copies the error field of the status body, so a body with
    status error and no message leaves an entry in status error without an
    error. And the failure update of an upload keeps the progress of the
    entries it marks: when an entry that is ready carries the local id an
    upload draws, the failed upload leaves it in status error with progress
    100. *)
Lemma invariant_not_enforced_by_client :
  (Forall documentInvariant (documents sampleState) ∧
   ¬ Forall errorInvariant
       (documents
          (applyUpdate (PollTick "doc-1" (HttpResponse true (Some errorWithoutMessage)) 0)
             sampleState)) ∧
   ¬ Forall documentInvariant
       (documents
          (applyUpdate (PollTick "doc-1" (HttpResponse true (Some errorWithoutMessage)) 0)
             sampleState))) ∧
  (Forall documentInvariant
     (documents (applyUpdate (UploadStarted oneStamp [goodPdf]) readyUnderLocalId)) ∧
   ¬ Forall progressInvariant
       (documents
          (applyUpdate (UploadSettled oneStamp [goodPdf] NetworkError)
             (applyUpdate (UploadStarted oneStamp [goodPdf]) readyUnderLocalId))) ∧
   ¬ Forall documentInvariant
       (documents
          (applyUpdate (UploadSettled oneStamp [goodPdf] NetworkError)
             (applyUpdate (UploadStarted oneStamp [goodPdf]) readyUnderLocalId)))).
Proof.
  repeat split; apply (bool_decide_unpack _); by vm_compute.
Qed.

(** C5, amended: every client-side update of the document list (load
    mapping, upload start, upload success or failure, poll tick) keeps the
    progress half of the invariant, progress 100 exactly in status ready,
    for every entry, with whatever the server sends, provided that no ready
    entry carries the local id of a file of an upload that fails. It keeps
    the error half, an error exactly in status error, for every entry,
    provided that the server body a load mapping or a poll tick copies from
    carries an error exactly when its status is error. Under both provisos
    it keeps the whole invariant. *)
Theorem client_update_preserves_invariant u prev :
  (Forall progressInvariant (documents prev) →
   failedUploadSparesReady u prev →
   Forall progressInvariant (documents (applyUpdate u prev))) ∧
  (Forall errorInvariant (documents prev) →
   consistentBodies u →
   Forall errorInvariant (documents (applyUpdate u prev))) ∧
  (Forall documentInvariant (documents prev) →
   failedUploadSparesReady u prev → consistentBodies u →
   Forall documentInvariant (documents (applyUpdate u prev))).
Proof.
  assert (Hprogress : Forall progressInvariant (documents prev) →
            failedUploadSparesReady u prev →
            Forall progressInvariant (documents (applyUpdate u prev))).
  { intros Hprev Hu.
    destruct u as [r|stamps files|stamps files r|documentId r pollCount]; simpl in *.
    - destruct r as [|[] [docs|]]; simpl; try done.
      apply Forall_fmap, Forall_forall. intros sdoc _.
      apply progress_ofServerDocument.
    - apply Forall_app. split; [done|].
      apply Forall_forall. intros d Hd.
      apply newDocuments_elem in Hd as (stamp & file & ->).
      apply progress_newDocument.
    - assert (Hfail : ∀ message, uploadAccepted r = false →
                Forall progressInvariant
                  (markFailed (newDocuments stamps files) message <$> documents prev)).
      { intros message Hr. apply Forall_fmap, Forall_forall. intros d Hd. simpl.
        apply progress_markFailed; [by eapply Forall_forall in Hprev|].
        by apply Hu. }
      destruct r as [|ok [result|]]; simpl; try (by apply Hfail).
      destruct (ok && ur_success result) eqn:E; simpl; [|by apply Hfail].
      apply Forall_fmap. eapply Forall_impl; [exact Hprev|].
      intros d Hd. by apply progress_replaceUploaded.
    - destruct r as [|[] [sd|]]; simpl; try done.
      assert (Forall progressInvariant (documents (applyStatus documentId sd prev))).
      { simpl. apply Forall_fmap. eapply Forall_impl; [exact Hprev|].
        intros d Hd. by apply progress_updateDocStatus. }
      destruct (isTerminal (sd_status sd)); [done|]. by case_bool_decide. }
  assert (Herror : Forall errorInvariant (documents prev) →
            consistentBodies u →
            Forall errorInvariant (documents (applyUpdate u prev))).
  { intros Hprev Hu.
    destruct u as [r|stamps files|stamps files r|documentId r pollCount]; simpl in *.
    - destruct r as [|[] [docs|]]; simpl; try done.
      apply Forall_fmap. eapply Forall_impl; [by apply Hu|].
      intros sdoc Hsdoc. by apply error_ofServerDocument.
    - apply Forall_app. split; [done|].
      apply Forall_forall. intros d Hd.
      apply newDocuments_elem in Hd as (stamp & file & ->).
      apply error_newDocument.
    - assert (Hfail : ∀ message,
                Forall errorInvariant
                  (markFailed (newDocuments stamps files) message <$> documents prev)).
      { intros message. apply Forall_fmap. eapply Forall_impl; [exact Hprev|].
        intros d Hd. by apply error_markFailed. }
      destruct r as [|ok [result|]]; simpl; try apply Hfail.
      destruct (ok && ur_success result); simpl; try apply Hfail.
      apply Forall_fmap. eapply Forall_impl; [exact Hprev|].
      intros d Hd. by apply error_replaceUploaded.
    - destruct r as [|[] [sd|]]; simpl; try done.
      assert (Forall errorInvariant (documents (applyStatus documentId sd prev))).
      { simpl. apply Forall_fmap. eapply Forall_impl; [exact Hprev|].
        intros d Hd. apply error_updateDocStatus; [done|]. by apply Hu. }
      destruct (isTerminal (sd_status sd)); [done|]. by case_bool_decide. }
  split; [exact Hprogress|]. split; [exact Herror|].
  intros Hprev Hready Hbodies.
  assert (Hsplit : ∀ ds, Forall documentInvariant ds
                         ↔ Forall errorInvariant ds ∧ Forall progressInvariant ds).
  { intros ds. unfold documentInvariant. rewrite Forall_and. done. }
  apply Hsplit in Hprev as [He Hp]. apply Hsplit. auto.
Qed.

(** A tick that reports ready without an error, on [sampleState]. *)
Lemma client_update_preserves_invariant_witness :
  Forall documentInvariant
    (documents
       (applyUpdate
          (PollTick "doc-1"
             (HttpResponse true (Some {| sd_status := Ready; sd_error := None |})) 0)
          sampleState)).
Proof.
  apply (client_update_preserves_invariant
           (PollTick "doc-1"
              (HttpResponse true (Some {| sd_status := Ready; sd_error := None |})) 0)
           sampleState).
  - repeat constructor; simpl; close_direction.
  - exact I.
  - simpl. intros sd [= <-]. split; simpl; close_direction.
Defined.

(** ** Upload validation in the drop zone *)

Lemma validateFile_spec file uploadError :
  validateFile file uploadError
  = (passesChecks file,
     if passesChecks file then uploadError else validationMessage file).
Proof.
  unfold validateFile, passesChecks, validationMessage.
  destruct (bool_decide (file_type file ∈ allowedTypes)); simpl; [|done].
  repeat case_bool_decide; try done; lia.
Qed.

Lemma validationMessage_failing file :
  passesChecks file = false → is_Some (validationMessage file).
Proof.
  unfold passesChecks, validationMessage.
  destruct (bool_decide (file_type file ∈ allowedTypes)); simpl; [|by eauto].
  repeat case_bool_decide; try done; try lia.
Qed.

(** [filterValid] keeps the passing files in order. *)
Lemma filterValid_files files uploadError :
  (filterValid files uploadError).1 = List.filter passesChecks files.
Proof.
  revert uploadError. induction files as [|file rest IH]; intros uploadError; [done|].
  simpl. rewrite validateFile_spec.
  specialize (IH (if passesChecks file then uploadError else validationMessage file)).
  destruct (filterValid rest _) as [validFiles e]. simpl in *. by rewrite IH.
Qed.

(** A failing file leaves a message in [uploadError]; a message that is
    there stays there. *)
Lemma filterValid_error files uploadError :
  (is_Some uploadError ∨ ∃ file, file ∈ files ∧ passesChecks file = false) →
  is_Some (filterValid files uploadError).2.
Proof.
  revert uploadError. induction files as [|file rest IH]; intros uploadError Hsome.
  - destruct Hsome as [H|(file & Hin & _)]; [done|]. by apply elem_of_nil in Hin.
  - simpl. rewrite validateFile_spec.
    specialize (IH (if passesChecks file then uploadError else validationMessage file)).
    destruct (filterValid rest _) as [validFiles e]. simpl in *. apply IH.
    destruct Hsome as [H|(f & Hin & Hf)].
    + left. destruct (passesChecks file) eqn:E; [done|].
      by apply validationMessage_failing.
    + apply elem_of_cons in Hin as [->|Hin].
      * left. rewrite Hf. by apply validationMessage_failing.
      * right. eauto.
Qed.

Lemma onDrop_no_rejection acceptedFiles :
  drop_uploaded (onDrop acceptedFiles [])
  = (if bool_decide (0 < length (List.filter passesChecks acceptedFiles))%nat
     then Some (List.filter passesChecks acceptedFiles) else None) ∧
  drop_uploadError (onDrop acceptedFiles []) = (filterValid acceptedFiles None).2.
Proof.
  unfold onDrop. simpl.
  pose proof (filterValid_files acceptedFiles None) as Hf.
  destruct (filterValid acceptedFiles None) as [validFiles e]. simpl in Hf. subst.
  by case_bool_decide.
Qed.

Lemma onDrop_rejection acceptedFiles rejection rejectedFiles :
  onDrop acceptedFiles (rejection :: rejectedFiles)
  = {| drop_uploadError :=
         Some "Some files were rejected. Please check file type and size.";
       drop_uploaded := None |}.
Proof. unfold onDrop. rewrite bool_decide_eq_true_2; [done | simpl; lia]. Qed.

(** C6, as the specification words it, does not hold: a file that passes
    both checks is not forwarded when the drop zone rejected another file of
    the same drop. *)
Lemma valid_file_not_forwarded :
  ¬ forwardsValidFiles [goodPdf] [wordRejection].
Proof.
  intros H. destruct (H goodPdf) as (files & Hup & _).
  - apply list_elem_of_here.
  - reflexivity.
  - discriminate Hup.
Qed.

(** C6, amended: no file whose type is not allowed or whose size exceeds
    10 MiB is ever forwarded to the upload operation, and such a file, like
    any file the drop zone rejected, leaves an error message. When the drop
    zone rejected no file, exactly the accepted files that pass both checks
    are forwarded, in order; when it rejected one, the whole drop is refused
    with an error message and no file is forwarded. *)
Theorem upload_validation acceptedFiles rejectedFiles :
  (∀ file, passesChecks file = true ↔
           (file_type file = "application/pdf" ∨ file_type file = "text/plain") ∧
           file_size file ≤ 10 * 1024 * 1024) ∧
  (∀ files file,
     drop_uploaded (onDrop acceptedFiles rejectedFiles) = Some files →
     file ∈ files → passesChecks file = true ∧ file ∈ acceptedFiles) ∧
  (∀ file, file ∈ acceptedFiles ∨ file ∈ rej_file <$> rejectedFiles →
     passesChecks file = false →
     is_Some (drop_uploadError (onDrop acceptedFiles rejectedFiles))) ∧
  (rejectedFiles = [] →
   ∀ file, file ∈ acceptedFiles → passesChecks file = true →
     drop_uploaded (onDrop acceptedFiles rejectedFiles)
     = Some (List.filter passesChecks acceptedFiles) ∧
     file ∈ List.filter passesChecks acceptedFiles) ∧
  (rejectedFiles ≠ [] →
   drop_uploaded (onDrop acceptedFiles rejectedFiles) = None ∧
   is_Some (drop_uploadError (onDrop acceptedFiles rejectedFiles))).
Proof.
  split; [|destruct rejectedFiles as [|rejection rejectedFiles]].
  - intros file. unfold passesChecks, allowedTypes, maxSize.
    rewrite andb_true_iff, !bool_decide_eq_true.
    rewrite !elem_of_cons, elem_of_nil. tauto.
  - destruct (onDrop_no_rejection acceptedFiles) as [Hup Herr].
    split; [|split; [|split]].
    + intros files file Hfiles Hin. rewrite Hup in Hfiles.
      case_bool_decide; [|done]. injection Hfiles as <-.
      apply list_elem_of_In, filter_In in Hin as [Hin Hp].
      split; [done|]. by apply list_elem_of_In.
    + intros file [Hin|Hin] Hfail; [|by apply elem_of_nil in Hin].
      rewrite Herr. apply filterValid_error. right. eauto.
    + intros _ file Hin Hp.
      assert (Hfi : file ∈ List.filter passesChecks acceptedFiles).
      { apply list_elem_of_In, filter_In. split; [by apply list_elem_of_In|done]. }
      split; [|done]. rewrite Hup. rewrite bool_decide_eq_true_2; [done|].
      destruct (List.filter passesChecks acceptedFiles); [|simpl; lia].
      by apply elem_of_nil in Hfi.
    + done.
  - rewrite onDrop_rejection. simpl.
    split; [|split; [|split]]; done.
Qed.

(** The two rejections of the specification: a PDF of 15 MiB gets the size
    message, a word file the type message, and neither is forwarded. *)
Lemma upload_validation_examples :
  onDrop [bigPdf] []
  = {| drop_uploadError := Some "File size must be less than 10MB";
       drop_uploaded := None |} ∧
  onDrop [wordFile] []
  = {| drop_uploadError := Some "Only PDF and TXT files are supported";
       drop_uploaded := None |} ∧
  onDrop [goodPdf; wordFile] []
  = {| drop_uploadError := Some "Only PDF and TXT files are supported";
       drop_uploaded := Some [goodPdf] |}.
Proof. repeat split. Qed.

(** ** Chat *)

(** C8: whatever the outcome of the chat request (an answer, an error
    response, a body that cannot be read, or a rejected request), the handler
    appends exactly one message after the user's, that message is of type
    assistant, and the loading flag is cleared; the same holds for the settle
    step from any state in which it runs. *)
Theorem chat_always_answers message now0 r now1 prev :
  ∃ reply,
    msg_type reply = Assistant ∧
    messages (handleSendMessage message now0 r now1 prev)
    = messages prev
      ++ [ {| msg_id := pretty now0; msg_type := User; msg_content := message;
              msg_timestamp := now0; msg_sources := None |}; reply ] ∧
    isLoading (handleSendMessage message now0 r now1 prev) = false ∧
    isLoading (sendUserMessage message now0 prev) = true ∧
    documents (handleSendMessage message now0 r now1 prev) = documents prev ∧
    (∀ st, messages (chatSettled r now1 st) = messages st ++ [reply] ∧
           isLoading (chatSettled r now1 st) = false) ∧
    (r = NetworkError ∨ (∃ ok, r = HttpResponse ok None) →
     msg_content reply
     = "Sorry, I couldn't connect to the server. Please try again.") ∧
    (∀ ok result, r = HttpResponse ok (Some result) → ok && cr_success result = false →
     msg_content reply
     = orElse (cr_error result) "Sorry, I encountered an error. Please try again.") ∧
    (∀ result, r = HttpResponse true (Some result) → cr_success result = true →
     msg_content reply = cr_answer result).
Proof.
  unfold handleSendMessage.
  destruct r as [|ok [result|]]; simpl;
    [|destruct (ok && cr_success result) eqn:E; simpl|];
    eexists; (split; [|split; [rewrite <- app_assoc; reflexivity|]]);
    try reflexivity; repeat split; try done;
    try (intros; simplify_eq; simpl in *; congruence);
    intros [H|[ok' H]]; discriminate.
Qed.

(** ** The ingestion state machine *)

Lemma reachable_from_terminal current next :
  isTerminal current = true → Ingestion.reachable current next = false.
Proof. destruct current, next; simpl; done. Qed.

(** Every edge of the state machine leaves a non-terminal state. *)
Lemma reachable_source current next :
  Ingestion.reachable current next = true → isTerminal current = false.
Proof. destruct current, next; simpl; done. Qed.

(** C9: for a document of the store in status [Ready] or [Error], a call of
    [advance] to any other status, with or without progress and error, fails
    with [InvalidTransition] and returns the store as it was, so that the
    document read back is the same. *)
Theorem advance_from_terminal_fails id d nextStatus progress error
    (store : gmap string Document) :
  store !! id = Some d →
  doc_status d = Ready ∨ doc_status d = Error →
  nextStatus ≠ doc_status d →
  Ingestion.advance id nextStatus progress error store
  = (store, Some Ingestion.InvalidTransition) ∧
  Ingestion.get id (Ingestion.advance id nextStatus progress error store).1 = inr d.
Proof.
  intros Hd Hterm _. unfold Ingestion.advance, Ingestion.get. rewrite Hd.
  rewrite reachable_from_terminal; [simpl; by rewrite Hd|].
  by destruct Hterm as [-> | ->].
Qed.

Lemma advance_from_terminal_fails_witness :
  Ingestion.advance "doc-1" Chunking (Some 40) None {[ "doc-1" := readyDocument ]}
  = ({[ "doc-1" := readyDocument ]}, Some Ingestion.InvalidTransition) ∧
  Ingestion.get "doc-1"
    (Ingestion.advance "doc-1" Chunking (Some 40) None
       {[ "doc-1" := readyDocument ]}).1
  = inr readyDocument.
Proof.
  apply advance_from_terminal_fails.
  - reflexivity.
  - left. reflexivity.
  - discriminate.
Defined.

(** * Further properties of the client *)

(** ** Loading and deleting *)

(** X1: a load whose request fails, is answered with a status that is not
    ok, or whose body cannot be read, leaves the application state as it
    was. A successful load replaces the whole document list by one entry per
    document of the server's listing, in the server's order, with the
    server's id, status and error and a progress of 100 for a ready document
    and 0 otherwise; the entries the list held before are dropped, and no
    other part of the state changes. *)
Theorem load_replaces_documents r prev :
  loadExistingDocuments NetworkError prev = prev ∧
  (∀ json, loadExistingDocuments (HttpResponse false json) prev = prev) ∧
  loadExistingDocuments (HttpResponse true None) prev = prev ∧
  (∀ docs, r = HttpResponse true (Some docs) →
     length (documents (loadExistingDocuments r prev)) = length docs ∧
     (∀ i doc, docs !! i = Some doc →
        ∃ d, documents (loadExistingDocuments r prev) !! i = Some d ∧
             doc_id d = sdoc_id doc ∧ doc_name d = sdoc_filename doc ∧
             doc_status d = sdoc_status doc ∧ doc_error d = sdoc_error doc ∧
             doc_progress d
             = Some (if bool_decide (sdoc_status doc = Ready) then 100 else 0)) ∧
     (∀ prev', documents (loadExistingDocuments r prev')
               = documents (loadExistingDocuments r prev)) ∧
     messages (loadExistingDocuments r prev) = messages prev ∧
     isLoading (loadExistingDocuments r prev) = isLoading prev ∧
     currentTab (loadExistingDocuments r prev) = currentTab prev ∧
     selectedSources (loadExistingDocuments r prev) = selectedSources prev).
Proof.
  split; [done|]. split; [done|]. split; [done|].
  intros docs ->. simpl. split; [by rewrite length_fmap|].
  split; [|done].
  intros i doc Hi. exists (ofServerDocument doc).
  rewrite list_lookup_fmap, Hi. done.
Qed.

(** Entries that do not belong to an upload are not touched when the upload
    settles. *)
Lemma replaceUploaded_other newDocs updatedDocs doc :
  isNewDocument newDocs doc = false → replaceUploaded newDocs updatedDocs doc = doc.
Proof.
  intros Hn. unfold replaceUploaded. rewrite Hn.
  by induction updatedDocs.
Qed.

Lemma markFailed_other newDocs message doc :
  isNewDocument newDocs doc = false → markFailed newDocs message doc = doc.
Proof. intros Hn. unfold markFailed. by rewrite Hn. Qed.

Lemma uploadSettled_untouched newDocs r prev :
  Forall (λ doc, isNewDocument newDocs doc = false) (documents prev) →
  documents (uploadSettled newDocs r prev).1 = documents prev.
Proof.
  intros Hnone.
  assert (Hf : ∀ message, markFailed newDocs message <$> documents prev = documents prev).
  { intros message. rewrite <- (list_fmap_id (documents prev)) at 2.
    apply Forall_fmap_ext_1. eapply Forall_impl; [exact Hnone|].
    intros d Hd. by apply markFailed_other. }
  destruct r as [|ok [result|]]; simpl; try apply Hf.
  destruct (ok && ur_success result); simpl; try apply Hf.
  rewrite <- (list_fmap_id (documents prev)) at 2.
  apply Forall_fmap_ext_1. eapply Forall_impl; [exact Hnone|].
  intros d Hd. by apply replaceUploaded_other.
Qed.

(** X2: when the initial load completes after an upload has added its
    optimistic entries, these entries are dropped with the rest of the old
    list; if no document of the listing carries the local id of an uploaded
    file, the upload's later success or failure update finds nothing to
    rewrite, and the list stays the server's listing. *)
Theorem load_discards_optimistic_entries stamps files docs r prev :
  Forall (λ doc, isNewDocument (newDocuments stamps files) (ofServerDocument doc) = false)
    docs →
  documents
    (loadExistingDocuments (HttpResponse true (Some docs))
       (addNewDocuments (newDocuments stamps files) prev))
  = ofServerDocument <$> docs ∧
  documents
    (uploadSettled (newDocuments stamps files) r
       (loadExistingDocuments (HttpResponse true (Some docs))
          (addNewDocuments (newDocuments stamps files) prev))).1
  = ofServerDocument <$> docs.
Proof.
  intros Hnone. split; [done|].
  rewrite uploadSettled_untouched; [done|].
  simpl. by apply Forall_fmap.
Qed.

Lemma load_discards_optimistic_entries_witness :
  documents
    (uploadSettled (newDocuments oneStamp [goodPdf])
       (HttpResponse true (Some oneAccepted))
       (loadExistingDocuments
          (HttpResponse true
             (Some [ {| sdoc_id := "srv-0"; sdoc_filename := "old.pdf";
                        sdoc_size := 10; sdoc_uploaded_at := 0;
                        sdoc_status := Ready; sdoc_error := None |} ]))
          (addNewDocuments (newDocuments oneStamp [goodPdf]) initialAppState))).1
  = ofServerDocument
      <$> [ {| sdoc_id := "srv-0"; sdoc_filename := "old.pdf";
               sdoc_size := 10; sdoc_uploaded_at := 0;
               sdoc_status := Ready; sdoc_error := None |} ].
Proof.
  apply (load_discards_optimistic_entries oneStamp [goodPdf]).
  repeat constructor.
Defined.

(** X3: a delete the server confirms removes every entry with that id and
    keeps the other entries, in their order; deleting again changes nothing
    more. A delete whose request fails or is answered with a status that is
    not ok removes nothing. *)
Theorem delete_removes_entries documentId json prev :
  (∀ doc, doc ∈ documents (handleDeleteDocument documentId (HttpResponse true json) prev)
          ↔ doc ∈ documents prev ∧ doc_id doc ≠ documentId) ∧
  documents (handleDeleteDocument documentId (HttpResponse true json) prev)
    `sublist_of` documents prev ∧
  handleDeleteDocument documentId (HttpResponse true json)
    (handleDeleteDocument documentId (HttpResponse true json) prev)
  = handleDeleteDocument documentId (HttpResponse true json) prev ∧
  handleDeleteDocument documentId (HttpResponse false json) prev = prev ∧
  handleDeleteDocument documentId NetworkError prev = prev.
Proof.
  split; [|split; [|split; [|done]]].
  - intros doc. simpl. rewrite list_elem_of_filter. tauto.
  - simpl. apply sublist_filter.
  - unfold handleDeleteDocument, withDocuments. simpl. f_equal.
    apply list_filter_filter_l. done.
Qed.

Lemma filter_updateDocStatus documentId otherId sd (ds : list Document) :
  filter (λ doc, doc_id doc ≠ documentId) (updateDocStatus otherId sd <$> ds)
  = updateDocStatus otherId sd <$> filter (λ doc, doc_id doc ≠ documentId) ds.
Proof.
  induction ds as [|d ds IH]; [done|].
  rewrite fmap_cons, !filter_cons, updateDocStatus_id.
  case_decide as Hd; [|done]. by rewrite fmap_cons, IH.
Qed.

Lemma updateDocStatus_filtered documentId sd (ds : list Document) :
  updateDocStatus documentId sd <$> filter (λ doc, doc_id doc ≠ documentId) ds
  = filter (λ doc, doc_id doc ≠ documentId) ds.
Proof.
  induction ds as [|d ds IH]; [done|].
  rewrite filter_cons. case_decide as Hd; [|done].
  rewrite fmap_cons, IH. by rewrite updateDocStatus_other.
Qed.

(** X4: the poller cannot bring a deleted document back. A successful tick
    for an id whose entries have been deleted changes nothing, a delete after
    a tick gives the same state as the delete alone, and a delete commutes
    with a tick for another id. *)
Theorem delete_wins_over_poll documentId sd json pollCount prev :
  (poll documentId (HttpResponse true (Some sd))
     (handleDeleteDocument documentId (HttpResponse true json) prev) pollCount).1.1
  = handleDeleteDocument documentId (HttpResponse true json) prev ∧
  handleDeleteDocument documentId (HttpResponse true json)
    (poll documentId (HttpResponse true (Some sd)) prev pollCount).1.1
  = handleDeleteDocument documentId (HttpResponse true json) prev ∧
  (∀ otherId,
     handleDeleteDocument documentId (HttpResponse true json)
       (poll otherId (HttpResponse true (Some sd)) prev pollCount).1.1
     = (poll otherId (HttpResponse true (Some sd))
          (handleDeleteDocument documentId (HttpResponse true json) prev)
          pollCount).1.1).
Proof.
  split; [|split].
  - rewrite poll_ok_state. unfold applyStatus, handleDeleteDocument, withDocuments.
    simpl. f_equal. apply updateDocStatus_filtered.
  - rewrite poll_ok_state. unfold applyStatus, handleDeleteDocument, withDocuments.
    simpl. f_equal. by rewrite filter_updateDocStatus, updateDocStatus_filtered.
  - intros otherId. rewrite !poll_ok_state.
    unfold applyStatus, handleDeleteDocument, withDocuments.
    simpl. f_equal. apply filter_updateDocStatus.
Qed.

(** ** Uploading *)

(** X5: starting an upload appends one optimistic entry per file, in the
    order of the files and after the entries that were there, which are kept
    as they are. The entry of a file carries its name and size, the type read
    off the name, the id built from the clock and the random suffix, status
    uploading, progress 0 and no error. *)
Theorem upload_adds_optimistic_entries stamps files prev :
  length (documents (addNewDocuments (newDocuments stamps files) prev))
  = (length (documents prev) + length files)%nat ∧
  (∀ i d, documents prev !! i = Some d →
     documents (addNewDocuments (newDocuments stamps files) prev) !! i = Some d) ∧
  (∀ i file, files !! i = Some file →
     ∃ d, documents (addNewDocuments (newDocuments stamps files) prev)
            !! (length (documents prev) + i)%nat = Some d ∧
          doc_id d = pretty (stamp_now (stamps i)) +:+ stamp_random (stamps i) ∧
          doc_name d = file_name file ∧ doc_size d = file_size file ∧
          doc_type d = typeOfName (file_name file) ∧
          doc_status d = Uploading ∧ doc_progress d = Some 0 ∧ doc_error d = None).
Proof.
  unfold addNewDocuments, newDocuments. simpl. split; [|split].
  - by rewrite length_app, length_imap.
  - intros i d Hi. by apply lookup_app_l_Some.
  - intros i file Hi. exists (newDocument (stamps i) file).
    rewrite lookup_app_r by lia.
    replace (length (documents prev) + i - length (documents prev))%nat with i by lia.
    rewrite list_lookup_imap, Hi. done.
Qed.

Lemma find_any {A} (l : list A) :
  List.find (λ _, true) l = head l ∧ List.find (λ _, false) l = None.
Proof. split; [by destruct l|by induction l]. Qed.

Lemma replaceUploaded_new newDocs updatedDocs doc :
  isNewDocument newDocs doc = true →
  replaceUploaded newDocs updatedDocs doc = default doc (head updatedDocs).
Proof.
  intros Hn. unfold replaceUploaded. rewrite Hn.
  rewrite (proj1 (find_any updatedDocs)). by destruct updatedDocs.
Qed.

(** X6: when the server accepts an upload, the document list keeps its
    length and every entry that does not carry the local id of a file of
    this upload. Every entry that does is replaced by one and the same
    document: the first file's entry with the first id of the response,
    status processing and progress 50. One polling session is started per
    file, for the id the response gives at the file's position, or for its
    local id when the response has none there. *)
Theorem upload_success_rewrites_entries newDocs result prev :
  ur_success result = true →
  length (documents (uploadSettled newDocs (HttpResponse true (Some result)) prev).1)
  = length (documents prev) ∧
  (∀ i d, documents prev !! i = Some d → isNewDocument newDocs d = false →
     documents (uploadSettled newDocs (HttpResponse true (Some result)) prev).1 !! i
     = Some d) ∧
  (∀ i d first rest, newDocs = first :: rest →
     documents prev !! i = Some d → isNewDocument newDocs d = true →
     documents (uploadSettled newDocs (HttpResponse true (Some result)) prev).1 !! i
     = Some {| doc_id := orElse (ur_documents result !! 0%nat) (doc_id first);
               doc_name := doc_name first; doc_type := doc_type first;
               doc_size := doc_size first; doc_uploadedAt := doc_uploadedAt first;
               doc_status := Processing; doc_progress := Some 50;
               doc_error := doc_error first |}) ∧
  length (uploadSettled newDocs (HttpResponse true (Some result)) prev).2
  = length newDocs ∧
  (∀ i nd, newDocs !! i = Some nd →
     (uploadSettled newDocs (HttpResponse true (Some result)) prev).2 !! i
     = Some (orElse (ur_documents result !! i) (doc_id nd))).
Proof.
  intros Hs. simpl. rewrite Hs. simpl.
  split; [by rewrite length_fmap|]. split; [|split; [|split]].
  - intros i d Hi Hn. rewrite list_lookup_fmap, Hi. simpl.
    by rewrite replaceUploaded_other.
  - intros i d first rest -> Hi Hn. rewrite list_lookup_fmap, Hi. simpl.
    by rewrite replaceUploaded_new.
  - unfold updatedDocuments. by rewrite length_fmap, length_imap.
  - intros i nd Hi. unfold updatedDocuments.
    by rewrite list_lookup_fmap, list_lookup_imap, Hi.
Qed.

Lemma upload_success_rewrites_entries_witness :
  doc_id <$> documents
    (uploadSettled (newDocuments twoStamps twoFiles)
       (HttpResponse true (Some twoAccepted))
       (addNewDocuments (newDocuments twoStamps twoFiles) sampleState)).1
  = ["doc-1"; "srv-a"; "srv-a"] ∧
  length (uploadSettled (newDocuments twoStamps twoFiles)
       (HttpResponse true (Some twoAccepted))
       (addNewDocuments (newDocuments twoStamps twoFiles) sampleState)).2
  = length (newDocuments twoStamps twoFiles).
Proof.
  split; [reflexivity|].
  apply (upload_success_rewrites_entries (newDocuments twoStamps twoFiles) twoAccepted).
  reflexivity.
Defined.

(** X7: when an upload fails, no polling session is started, the list keeps
    its length and every entry that does not carry the local id of a file of
    this upload; every entry that does is set to status error, with the
    message "Upload failed" when a response arrived that was not ok or not
    marked as a success, and "Network error" when the request was rejected
    or the body could not be read. Its id, name and progress stay as they
    were. *)
Theorem upload_failure_marks_entries newDocs r prev :
  (∀ result, r = HttpResponse true (Some result) → ur_success result = false) →
  (uploadSettled newDocs r prev).2 = [] ∧
  length (documents (uploadSettled newDocs r prev).1) = length (documents prev) ∧
  (∀ i d, documents prev !! i = Some d → isNewDocument newDocs d = false →
     documents (uploadSettled newDocs r prev).1 !! i = Some d) ∧
  (∀ i d, documents prev !! i = Some d → isNewDocument newDocs d = true →
     ∃ d', documents (uploadSettled newDocs r prev).1 !! i = Some d' ∧
           doc_status d' = Error ∧
           doc_error d'
           = Some (match r with
                   | HttpResponse _ (Some _) => "Upload failed"
                   | _ => "Network error"
                   end) ∧
           doc_id d' = doc_id d ∧ doc_name d' = doc_name d ∧
           doc_progress d' = doc_progress d).
Proof.
  intros Hfail.
  assert (Hshape : ∃ message,
            uploadSettled newDocs r prev
            = (withDocuments prev (markFailed newDocs message <$> documents prev), [])
            ∧ message = match r with
                        | HttpResponse _ (Some _) => "Upload failed"
                        | _ => "Network error"
                        end).
  { destruct r as [|ok [result|]]; simpl; eauto.
    destruct ok; simpl; eauto. rewrite (Hfail result eq_refl). eauto. }
  destruct Hshape as (message & -> & Hm). rewrite <- Hm. simpl.
  split; [done|]. split; [by rewrite length_fmap|]. split.
  - intros i d Hi Hn. rewrite list_lookup_fmap, Hi. simpl.
    by rewrite markFailed_other.
  - intros i d Hi Hn. eexists. rewrite list_lookup_fmap, Hi. simpl.
    split; [reflexivity|]. unfold markFailed. by rewrite Hn.
Qed.

Lemma upload_failure_marks_entries_witness :
  (uploadSettled (newDocuments oneStamp [goodPdf]) NetworkError
     (addNewDocuments (newDocuments oneStamp [goodPdf]) sampleState)).2 = [] ∧
  doc_error <$> documents
    (uploadSettled (newDocuments oneStamp [goodPdf]) NetworkError
       (addNewDocuments (newDocuments oneStamp [goodPdf]) sampleState)).1
  = [None; Some "Network error"].
Proof.
  split; [|reflexivity].
  apply (upload_failure_marks_entries (newDocuments oneStamp [goodPdf]) NetworkError).
  intros result H. discriminate H.
Defined.

(** X8: an upload of a single file that the server accepts ends with the
    file's entry under the id for which the polling session is started (the
    server's id, or the local one when the response has none), in status
    processing with progress 50, so that the session's ticks find the
    entry. *)
Theorem single_upload_is_polled stamps file result prev :
  ur_success result = true →
  ∃ d,
    documents
      (uploadSettled (newDocuments stamps [file]) (HttpResponse true (Some result))
         (addNewDocuments (newDocuments stamps [file]) prev)).1
      !! length (documents prev) = Some d ∧
    (uploadSettled (newDocuments stamps [file]) (HttpResponse true (Some result))
       (addNewDocuments (newDocuments stamps [file]) prev)).2 = [doc_id d] ∧
    doc_id d
    = orElse (ur_documents result !! 0%nat)
        (pretty (stamp_now (stamps 0%nat)) +:+ stamp_random (stamps 0%nat)) ∧
    doc_name d = file_name file ∧
    doc_status d = Processing ∧ doc_progress d = Some 50 ∧ doc_error d = None.
Proof.
  intros Hs. eexists. simpl. rewrite Hs. simpl. split.
  - rewrite list_lookup_fmap, lookup_app_r, Nat.sub_diag by lia. simpl.
    rewrite replaceUploaded_new; [done|].
    simpl. by rewrite bool_decide_eq_true_2.
  - done.
Qed.

Lemma single_upload_is_polled_witness :
  ∃ d,
    documents
      (uploadSettled (newDocuments oneStamp [goodPdf])
         (HttpResponse true (Some oneAccepted))
         (addNewDocuments (newDocuments oneStamp [goodPdf]) sampleState)).1
      !! 1%nat = Some d ∧
    (uploadSettled (newDocuments oneStamp [goodPdf])
       (HttpResponse true (Some oneAccepted))
       (addNewDocuments (newDocuments oneStamp [goodPdf]) sampleState)).2
    = [doc_id d] ∧
    doc_id d = "srv-a".
Proof.
  destruct (single_upload_is_polled oneStamp goodPdf oneAccepted sampleState eq_refl)
    as (d & Hd & Hp & Hid & _).
  exists d. split; [exact Hd|]. split; [exact Hp|]. exact Hid.
Defined.

(** ** When the chat is enabled *)

Lemma hasDocuments_true st :
  hasDocuments st = true ↔ ∃ d, d ∈ documents st ∧ doc_status d = Ready.
Proof.
  unfold hasDocuments. rewrite existsb_exists. split.
  - intros (d & Hin & Hd). exists d. split; [by apply list_elem_of_In|].
    by apply bool_decide_eq_true in Hd.
  - intros (d & Hin & Hd). exists d. split; [by apply list_elem_of_In|].
    by apply bool_decide_eq_true.
Qed.

Lemma hasDocuments_false st :
  hasDocuments st = false ↔ ∀ d, d ∈ documents st → doc_status d ≠ Ready.
Proof.
  rewrite <- not_true_iff_false, hasDocuments_true. split.
  - intros Hno d Hin Hd. apply Hno. eauto.
  - intros Hall (d & Hin & Hd). by apply (Hall d).
Qed.

(** X9: an upload never makes a document ready. Adding the optimistic
    entries leaves [hasDocuments] as it was, and when the upload settles,
    with whatever outcome, [hasDocuments] can only hold if it held before; so
    as long as no document was ready, a suggested question is not sent. *)
Theorem upload_never_enables_chat stamps files r prev :
  hasDocuments (addNewDocuments (newDocuments stamps files) prev) = hasDocuments prev ∧
  (hasDocuments (uploadSettled (newDocuments stamps files) r prev).1 = true →
   hasDocuments prev = true) ∧
  (hasDocuments prev = false →
   ∀ question loading,
     handleSuggestedQuestion question loading
       (hasDocuments
          (uploadSettled (newDocuments stamps files) r
             (addNewDocuments (newDocuments stamps files) prev)).1) = None).
Proof.
  assert (Hadd : hasDocuments (addNewDocuments (newDocuments stamps files) prev)
                 = hasDocuments prev).
  { apply Bool.eq_true_iff_eq. rewrite !hasDocuments_true. simpl. split.
    - intros (d & Hin & Hd). apply elem_of_app in Hin as [Hin|Hin]; [by eauto|].
      apply newDocuments_elem in Hin as (s & f & ->). done.
    - intros (d & Hin & Hd). exists d. split; [|done].
      apply elem_of_app. by left. }
  assert (Hsettle : ∀ st, hasDocuments (uploadSettled (newDocuments stamps files) r st).1
                          = true → hasDocuments st = true).
  { intros st. rewrite !hasDocuments_true. intros (d & Hin & Hd).
    assert (Hmark : ∀ message d0,
              doc_status (markFailed (newDocuments stamps files) message d0) = Ready →
              doc_status d0 = Ready).
    { intros message d0. unfold markFailed.
      by destruct (isNewDocument (newDocuments stamps files) d0). }
    assert (Hrep : ∀ result d0,
              doc_status (replaceUploaded (newDocuments stamps files)
                            (updatedDocuments result (newDocuments stamps files)) d0)
              = Ready → doc_status d0 = Ready).
    { intros result d0. unfold replaceUploaded.
      destruct (List.find _ _) as [u|] eqn:E; [|done].
      apply find_some in E as [Hu _].
      apply list_elem_of_In, updatedDocuments_elem in Hu as (Hs & _).
      rewrite Hs. done. }
    destruct r as [|ok [result|]]; simpl in Hin;
      [|destruct (ok && ur_success result); simpl in Hin|];
      apply list_elem_of_fmap in Hin as (d0 & -> & Hin0); exists d0;
      (split; [done|]); eauto. }
  split; [exact Hadd|]. split; [apply Hsettle|].
  intros Hno question loading. unfold handleSuggestedQuestion.
  destruct (hasDocuments (uploadSettled _ _ _).1) eqn:E; [|by rewrite andb_false_r].
  apply Hsettle in E. rewrite Hadd in E. congruence.
Qed.

(** X10: a successful tick that reports ready for an id the list holds
    enables the chat; and when the chat was not enabled before a tick and is
    enabled after it, the tick reported ready for an id the list holds. *)
Theorem ready_tick_enables_chat documentId sd prev pollCount :
  (sd_status sd = Ready →
   (∃ d, d ∈ documents prev ∧ doc_id d = documentId) →
   hasDocuments (poll documentId (HttpResponse true (Some sd)) prev pollCount).1.1
   = true) ∧
  (hasDocuments prev = false →
   hasDocuments (poll documentId (HttpResponse true (Some sd)) prev pollCount).1.1
   = true →
   sd_status sd = Ready ∧ ∃ d, d ∈ documents prev ∧ doc_id d = documentId).
Proof.
  rewrite poll_ok_state. split.
  - intros Hready (d & Hin & Hid). apply hasDocuments_true.
    exists (updateDocStatus documentId sd d). split.
    + simpl. by apply list_elem_of_fmap_2.
    + unfold updateDocStatus. by rewrite bool_decide_eq_true_2.
  - rewrite hasDocuments_false, hasDocuments_true.
    intros Hno (d & Hin & Hd). simpl in Hin.
    apply list_elem_of_fmap in Hin as (d0 & -> & Hin0).
    unfold updateDocStatus in Hd. case_bool_decide as Hid.
    + simpl in Hd. eauto.
    + by destruct (Hno d0 Hin0).
Qed.

Lemma ready_tick_enables_chat_witness :
  hasDocuments sampleState = false ∧
  hasDocuments
    (poll "doc-1" (HttpResponse true (Some {| sd_status := Ready; sd_error := None |}))
       sampleState 0).1.1 = true.
Proof.
  split; [reflexivity|].
  apply (ready_tick_enables_chat "doc-1" {| sd_status := Ready; sd_error := None |}
           sampleState 0).
  - reflexivity.
  - exists sampleDocument. split; [apply list_elem_of_here | reflexivity].
Defined.

(** ** The sources of a chat answer *)

(** X11: a chat answer replaces the selected sources by the sources of the
    answer and attaches them to the assistant message. Every other outcome
    keeps the selected sources, and its message carries none. The document
    list and the current tab are never touched by the chat. *)
Theorem chat_selects_sources r now prev :
  (∀ result, r = HttpResponse true (Some result) → cr_success result = true →
     selectedSources (chatSettled r now prev) = cr_sources result ∧
     msg_sources <$> last (messages (chatSettled r now prev))
     = Some (Some (cr_sources result))) ∧
  ((∀ result, r = HttpResponse true (Some result) → cr_success result = false) →
     selectedSources (chatSettled r now prev) = selectedSources prev ∧
     msg_sources <$> last (messages (chatSettled r now prev)) = Some None) ∧
  documents (chatSettled r now prev) = documents prev ∧
  currentTab (chatSettled r now prev) = currentTab prev.
Proof.
  split; [|split].
  - intros result -> Hs. simpl. rewrite Hs. simpl. by rewrite last_snoc.
  - intros Hfail. destruct r as [|ok [result|]]; simpl; rewrite ?last_snoc; try done.
    destruct ok; simpl; rewrite ?last_snoc; try done.
    rewrite (Hfail result eq_refl). simpl. by rewrite last_snoc.
  - destruct r as [|ok [result|]]; simpl; try done.
    by destruct (ok && cr_success result).
Qed.

(** ** How a polling session ends *)




(** ** The message of the drop zone *)

Lemma validationMessage_passing file :
  passesChecks file = true → validationMessage file = None.
Proof.
  unfold passesChecks, validationMessage.
  destruct (bool_decide (file_type file ∈ allowedTypes)); simpl; [|done].
  repeat case_bool_decide; try done; lia.
Qed.

Lemma filterValid_message files uploadError :
  (filterValid files uploadError).2
  = match last (omap validationMessage files) with
    | Some message => Some message
    | None => uploadError
    end.
Proof.
  revert uploadError. induction files as [|file rest IH]; intros uploadError; [done|].
  simpl. rewrite validateFile_spec.
  specialize (IH (if passesChecks file then uploadError else validationMessage file)).
  destruct (filterValid rest _) as [validFiles e]. simpl in *. rewrite IH.
  destruct (passesChecks file) eqn:E.
  - by rewrite validationMessage_passing.
  - destruct (validationMessage_failing file E) as [message ->]. simpl.
    rewrite last_cons. by destruct (last _).
Qed.

(** X13: after a drop that the drop zone passed on without a rejection, the
    error shown is the validation message of the last accepted file that
    fails a check, and no error when every file passes, whatever was shown
    before. A file of a type that is not allowed gets the type message even
    when it is also too large. [onUpload] is never called with an empty
    list. *)
Theorem drop_error_is_last_failure acceptedFiles :
  drop_uploadError (onDrop acceptedFiles [])
  = last (omap validationMessage acceptedFiles) ∧
  (Forall (λ file, passesChecks file = true) acceptedFiles →
   drop_uploadError (onDrop acceptedFiles []) = None) ∧
  (∀ file, file_type file ∉ allowedTypes →
     validationMessage file = Some "Only PDF and TXT files are supported") ∧
  (∀ file, file_type file ∈ allowedTypes → file_size file > maxSize →
     validationMessage file = Some "File size must be less than 10MB") ∧
  (∀ rejectedFiles, drop_uploaded (onDrop acceptedFiles rejectedFiles) ≠ Some []).
Proof.
  assert (Herr : drop_uploadError (onDrop acceptedFiles [])
                 = last (omap validationMessage acceptedFiles)).
  { rewrite (proj2 (onDrop_no_rejection acceptedFiles)), filterValid_message.
    by destruct (last _). }
  split; [exact Herr|]. split; [|split; [|split]].
  - intros Hall. rewrite Herr. clear Herr.
    replace (omap validationMessage acceptedFiles) with (@nil string); [done|].
    induction Hall as [|file rest Hfile Hrest IH]; [done|].
    simpl. rewrite validationMessage_passing by done. exact IH.
  - intros file Hty. unfold validationMessage.
    by rewrite bool_decide_eq_false_2.
  - intros file Hty Hsize. unfold validationMessage.
    rewrite bool_decide_eq_true_2 by done. simpl.
    by rewrite bool_decide_eq_true_2.
  - intros [|rejection rejectedFiles]; [|by rewrite onDrop_rejection].
    rewrite (proj1 (onDrop_no_rejection acceptedFiles)).
    case_bool_decide as Hlen; [|done].
    intros [= Hnil]. rewrite Hnil in Hlen. simpl in Hlen. lia.
Qed.

(** ** What the document list shows *)

(** X14: the four places that render a status agree on its class. The
    progress bar is shown exactly for the statuses on which the poller goes
    on, and exactly these get the spinning icon and the blue colours; ready
    alone gets the check icon and the green colours, error alone the
    exclamation icon and the red colours. The labels of two different
    statuses differ. *)
Theorem status_rendering_agrees status :
  showsProgress status = negb (isTerminal status) ∧
  (showsProgress status = true ↔ (getStatusIcon status).1 = HiArrowPath) ∧
  (showsProgress status = true ↔ getStatusColor status = "text-blue-600") ∧
  (showsProgress status = true ↔ statusBadgeClass status = "bg-blue-100 text-blue-700") ∧
  (status = Ready ↔ (getStatusIcon status).1 = HiCheckCircle) ∧
  (status = Ready ↔ getStatusColor status = "text-green-600") ∧
  (status = Ready ↔ statusBadgeClass status = "bg-green-100 text-green-700") ∧
  (status = Error ↔ (getStatusIcon status).1 = HiExclamationCircle) ∧
  (status = Error ↔ getStatusColor status = "text-red-600") ∧
  (status = Error ↔ statusBadgeClass status = "bg-red-100 text-red-700") ∧
  (∀ other, getStatusText status = getStatusText other → status = other).
Proof.
  repeat split; try (by destruct status); try (destruct status; by vm_compute).
  intros other. destruct status, other; by vm_compute.
Qed.

(** X15: the progress bar only ever stands at 0, 50 or 75 percent. The
    list is empty at the start, and the load mapping, the steps of an upload,
    a poll tick and a delete keep this for every entry whose bar is shown;
    with whatever the server reports, the bar never shows 100 percent. *)
Theorem progress_bar_values u documentId r prev :
  Forall (λ d, showsProgress (doc_status d) = true →
               progressBarWidth d = 0 ∨ progressBarWidth d = 50 ∨ progressBarWidth d = 75)
    (documents prev) →
  Forall (λ d, showsProgress (doc_status d) = true →
               progressBarWidth d = 0 ∨ progressBarWidth d = 50 ∨ progressBarWidth d = 75)
    (documents (applyUpdate u prev)) ∧
  Forall (λ d, showsProgress (doc_status d) = true →
               progressBarWidth d = 0 ∨ progressBarWidth d = 50 ∨ progressBarWidth d = 75)
    (documents (handleDeleteDocument documentId r prev)).
Proof.
  intros Hprev. split.
  - destruct u as [r0|stamps files|stamps files r0|id r0 pollCount]; simpl.
    + destruct r0 as [|[] [docs|]]; simpl; try done.
      apply Forall_fmap, Forall_forall. intros doc _. simpl.
      unfold progressBarWidth. simpl. case_bool_decide as Hs; [|auto].
      rewrite Hs. done.
    + apply Forall_app. split; [done|].
      apply Forall_forall. intros d Hd.
      apply newDocuments_elem in Hd as (stamp & file & ->). auto.
    + assert (Hfail : ∀ message,
                Forall (λ d, showsProgress (doc_status d) = true →
                             progressBarWidth d = 0 ∨ progressBarWidth d = 50
                             ∨ progressBarWidth d = 75)
                  (markFailed (newDocuments stamps files) message <$> documents prev)).
      { intros message. apply Forall_fmap. eapply Forall_impl; [exact Hprev|].
        intros d Hd. simpl. unfold markFailed.
        by destruct (isNewDocument (newDocuments stamps files) d). }
      destruct r0 as [|ok [result|]]; simpl; try apply Hfail.
      destruct (ok && ur_success result); simpl; try apply Hfail.
      apply Forall_fmap. eapply Forall_impl; [exact Hprev|].
      intros d Hd. simpl. unfold replaceUploaded.
      destruct (List.find _ _) as [upd|] eqn:E; [|done].
      apply find_some in E as [Hin _].
      apply list_elem_of_In, updatedDocuments_elem in Hin as (_ & Hp & _).
      unfold progressBarWidth. rewrite Hp. auto.
    + destruct r0 as [|[] [sd|]]; simpl; try done.
      assert (Forall (λ d, showsProgress (doc_status d) = true →
                           progressBarWidth d = 0 ∨ progressBarWidth d = 50
                           ∨ progressBarWidth d = 75)
                (documents (applyStatus id sd prev))).
      { simpl. apply Forall_fmap. eapply Forall_impl; [exact Hprev|].
        intros d Hd. simpl. unfold updateDocStatus. case_bool_decide; [|done].
        unfold progressBarWidth. simpl. case_bool_decide as Hs; [|auto].
        rewrite Hs. done. }
      destruct (isTerminal (sd_status sd)); [done|]. by case_bool_decide.
  - destruct r as [|[] json]; simpl; try done.
    apply Forall_forall. intros d Hd. apply list_elem_of_filter in Hd as [_ Hd].
    by eapply Forall_forall in Hprev.
Qed.

Lemma progress_bar_values_witness :
  Forall (λ d, showsProgress (doc_status d) = true →
               progressBarWidth d = 0 ∨ progressBarWidth d = 50 ∨ progressBarWidth d = 75)
    (documents
       (applyUpdate
          (PollTick "doc-1"
             (HttpResponse true (Some {| sd_status := Embedding; sd_error := None |})) 0)
          sampleState)).
Proof.
  destruct (progress_bar_values
              (PollTick "doc-1"
                 (HttpResponse true (Some {| sd_status := Embedding; sd_error := None |})) 0)
              "doc-1" NetworkError sampleState) as [Hbar _].
  - constructor; [intros _; right; left; reflexivity | constructor].
  - exact Hbar.
Defined.

(** ** The reasoning section of a message *)

(** X16: toggling the reasoning section of a message flips its state and
    leaves the state of every other message; toggling twice shows every
    message as before; toggles of different messages commute, and before any
    toggle every section is collapsed. *)
Theorem toggle_thinking_flips messageId (expandedThinking : gmap string bool) :
  isThinkingExpanded (toggleThinking messageId expandedThinking) messageId
  = negb (isThinkingExpanded expandedThinking messageId) ∧
  (∀ other, other ≠ messageId →
     isThinkingExpanded (toggleThinking messageId expandedThinking) other
     = isThinkingExpanded expandedThinking other) ∧
  (∀ other,
     isThinkingExpanded
       (toggleThinking messageId (toggleThinking messageId expandedThinking)) other
     = isThinkingExpanded expandedThinking other) ∧
  (∀ other, other ≠ messageId →
     toggleThinking messageId (toggleThinking other expandedThinking)
     = toggleThinking other (toggleThinking messageId expandedThinking)) ∧
  isThinkingExpanded ∅ messageId = false.
Proof.
  unfold isThinkingExpanded, toggleThinking. split; [|split; [|split; [|split]]].
  - by rewrite lookup_insert_eq.
  - intros other Hne. by rewrite lookup_insert_ne.
  - intros other. destruct (decide (other = messageId)) as [->|Hne].
    + rewrite !lookup_insert_eq. simpl. by rewrite negb_involutive.
    + by rewrite !lookup_insert_ne.
  - intros other Hne. rewrite !lookup_insert_ne by done.
    by apply insert_insert_ne.
  - by rewrite lookup_empty.
Qed.

(** ** Strings *)

#[local] Arguments String.append !_ _ / : simpl nomatch.

Lemma string_app_assoc (a b c : string) : (a +:+ b) +:+ c = a +:+ b +:+ c.
Proof. induction a as [|x a IH]; simpl; congruence. Qed.

Lemma string_app_nil_r (a : string) : a +:+ "" = a.
Proof. induction a as [|x a IH]; simpl; congruence. Qed.

Lemma string_app_length (a b : string) :
  String.length (a +:+ b) = (String.length a + String.length b)%nat.
Proof. induction a as [|x a IH]; simpl; congruence. Qed.

Lemma string_app_inj_r (a b s : string) : a +:+ s = b +:+ s → a = b.
Proof.
  revert b. induction a as [|x a IH]; intros [|y b] H; simpl in *.
  - done.
  - apply (f_equal String.length) in H. simpl in H.
    rewrite string_app_length in H. lia.
  - apply (f_equal String.length) in H. simpl in H.
    rewrite string_app_length in H. lia.
  - injection H as -> H. f_equal. by apply IH.
Qed.

(** Two ways of cutting the same string: the shorter first part is a prefix
    of the longer one. *)
Lemma string_app_split (x y u v : string) :
  x +:+ y = u +:+ v → (String.length x ≤ String.length u)%nat →
  ∃ w, u = x +:+ w ∧ y = w +:+ v.
Proof.
  revert u. induction x as [|c x IH]; intros u H Hlen; simpl in *.
  - exists u. done.
  - destruct u as [|d u]; simpl in *; [lia|].
    injection H as -> H. destruct (IH u H ltac:(lia)) as (w & -> & ->).
    by exists w.
Qed.

Lemma stripPrefix_sound p s rest : stripPrefix p s = Some rest → s = p +:+ rest.
Proof.
  revert s. induction p as [|a p IH]; intros s H; simpl in *.
  - by injection H as ->.
  - destruct s as [|b s]; [done|]. case_bool_decide as Hab; [|done].
    subst b. simpl. f_equal. by apply IH.
Qed.

Lemma stripPrefix_complete p rest : stripPrefix p (p +:+ rest) = Some rest.
Proof.
  induction p as [|a p IH]; simpl; [done|]. by rewrite bool_decide_eq_true_2.
Qed.

Lemma splitAtFirst_sound sep s before after :
  splitAtFirst sep s = Some (before, after) → s = before +:+ sep +:+ after.
Proof.
  revert before. induction s as [|c s IH]; intros before; simpl.
  - destruct (stripPrefix sep "") as [rest|] eqn:E; [|done].
    intros [= <- <-]. by apply stripPrefix_sound in E.
  - destruct (stripPrefix sep (String c s)) as [rest|] eqn:E.
    + intros [= <- <-]. by apply stripPrefix_sound in E.
    + destruct (splitAtFirst sep s) as [[b a]|]; [|done].
      intros [= <- <-]. simpl. f_equal. by apply IH.
Qed.

(** The cut is at the first occurrence. *)
Lemma splitAtFirst_first sep s before after b a :
  splitAtFirst sep s = Some (before, after) → s = b +:+ sep +:+ a →
  (String.length before ≤ String.length b)%nat.
Proof.
  revert before b. induction s as [|c s IH]; intros before b; simpl.
  - destruct (stripPrefix sep "") as [rest|]; [|done].
    intros [= <- <-] _. simpl. lia.
  - destruct (stripPrefix sep (String c s)) as [rest|] eqn:E.
    + intros [= <- <-] _. simpl. lia.
    + destruct (splitAtFirst sep s) as [[b0 a0]|] eqn:Es; [|done].
      intros [= <- <-] Hs. destruct b as [|d b]; simpl in Hs.
      * rewrite Hs, stripPrefix_complete in E. done.
      * injection Hs as -> Hs. simpl. specialize (IH b0 b eq_refl Hs). lia.
Qed.

Lemma splitAtFirst_complete sep s b a :
  s = b +:+ sep +:+ a → is_Some (splitAtFirst sep s).
Proof.
  revert b. induction s as [|c s IH]; intros b Hs.
  - destruct b; [|done]. simpl in Hs. simpl.
    rewrite Hs, stripPrefix_complete. by eauto.
  - simpl. destruct (stripPrefix sep (String c s)) as [rest|] eqn:E; [by eauto|].
    destruct b as [|d b]; simpl in Hs.
    + rewrite Hs, stripPrefix_complete in E. done.
    + injection Hs as -> Hs. destruct (IH b Hs) as [[b0 a0] ->]. by eauto.
Qed.

(** ** The reasoning section of an answer *)

(** X17: for every trimming function, [parseMessageContent] finds a
    reasoning section exactly when the content holds an opening tag with a
    closing tag after it. The content is then the text before the first
    opening tag, the tag, the reasoning up to the first closing tag after it,
    that tag and the rest; what is returned is the trimming of the reasoning
    and the trimming of the text before and after the section joined.
    Without such a pair the content is returned as it is, untrimmed. *)
Theorem parse_message_content (trim : string → string) content :
  (thinking (parseMessageContent trim content) = None →
   mainContent (parseMessageContent trim content) = content) ∧
  (∀ t, thinking (parseMessageContent trim content) = Some t →
     ∃ before inner after,
       content = before +:+ "<think>" +:+ inner +:+ "</think>" +:+ after ∧
       t = trim inner ∧
       mainContent (parseMessageContent trim content) = trim (before +:+ after) ∧
       (∀ b a, content = b +:+ "<think>" +:+ a →
               (String.length before ≤ String.length b)%nat) ∧
       (∀ i a, inner +:+ "</think>" +:+ after = i +:+ "</think>" +:+ a →
               (String.length inner ≤ String.length i)%nat)) ∧
  (is_Some (thinking (parseMessageContent trim content)) ↔
   ∃ before inner after,
     content = before +:+ "<think>" +:+ inner +:+ "</think>" +:+ after).
Proof.
  unfold parseMessageContent.
  destruct (splitAtFirst "<think>" content) as [[before rest]|] eqn:Eo.
  - pose proof (splitAtFirst_sound _ _ _ _ Eo) as Hcontent.
    destruct (splitAtFirst "</think>" rest) as [[inner after]|] eqn:Ec.
    + pose proof (splitAtFirst_sound _ _ _ _ Ec) as Hrest. cbn [thinking mainContent].
      split; [done|]. split.
      * intros t [= <-]. exists before, inner, after.
        split; [by rewrite Hcontent, Hrest|]. split; [done|]. split; [done|].
        split.
        -- intros b a Hb.
           exact (splitAtFirst_first "<think>" content before rest b a Eo Hb).
        -- intros i a Hi. rewrite <- Hrest in Hi.
           exact (splitAtFirst_first "</think>" rest inner after i a Ec Hi).
      * split; [|by eauto]. intros _. exists before, inner, after.
        by rewrite Hcontent, Hrest.
    + cbn [thinking mainContent]. split; [done|]. split; [done|].
      split; [by intros [? ?]|].
      intros (b & i & a & Hb). exfalso.
      pose proof (splitAtFirst_first _ _ _ _ b (i +:+ "</think>" +:+ a) Eo Hb) as Hlen.
      rewrite Hcontent in Hb.
      destruct (string_app_split (before +:+ "<think>") rest
                  (b +:+ "<think>" +:+ i) ("</think>" +:+ a)) as (w & _ & Hw).
      * by rewrite !string_app_assoc.
      * rewrite !string_app_length. simpl. lia.
      * destruct (splitAtFirst_complete "</think>" rest w a Hw) as [? Hsome].
        rewrite Hsome in Ec. done.
  - cbn [thinking mainContent]. split; [done|]. split; [done|].
    split; [by intros [? ?]|].
    intros (b & i & a & Hb). exfalso.
    destruct (splitAtFirst_complete "<think>" content b (i +:+ "</think>" +:+ a) Hb)
      as [? Hsome].
    rewrite Hsome in Eo. done.
Qed.

(** X18: a user's message is shown as it was typed, tags included, and the
    reasoning section is only ever offered for an assistant message with a
    reasoning that is not empty. *)
Theorem user_message_shown_verbatim (trim : string → string) message :
  (msg_type message = User →
   displayedText trim message = msg_content message ∧
   offersThinking trim message = false) ∧
  (offersThinking trim message = true →
   msg_type message = Assistant ∧
   ∃ t, thinking (parseMessageContent trim (msg_content message)) = Some t ∧ t ≠ "") ∧
  (thinking (parseMessageContent trim (msg_content message)) = None →
   displayedText trim message = msg_content message).
Proof.
  unfold displayedText, offersThinking. split; [|split].
  - intros Hu. rewrite Hu. simpl. split; [done|].
    destruct (thinking _); [|done]. rewrite andb_false_r. done.
  - destruct (thinking _) as [t|]; [|done].
    intros H. apply andb_true_iff in H as [Ht Ha].
    apply bool_decide_eq_true in Ha. split; [done|].
    exists t. split; [done|]. apply negb_true_iff, bool_decide_eq_false in Ht. done.
  - unfold parseMessageContent.
    destruct (splitAtFirst "<think>" (msg_content message)) as [[before rest]|];
      [destruct (splitAtFirst "</think>" rest) as [[inner after]|]|];
      cbn [thinking mainContent]; try done; by case_bool_decide.
Qed.

(** ** Sending a message *)

(** X19: for every trimming function, the chat's submit handler sends
    nothing and keeps the input box as it is while a request is loading or
    when the trimmed input is empty; in every other case it sends exactly the
    trimmed input and clears the input box. So a message it sends is never
    empty, and the box is cleared exactly when a message is sent. *)
Theorem submit_sends_trimmed (trim : string → string) inputMessage loading :
  (loading = true ∨ trim inputMessage = "" →
   handleSubmit trim inputMessage loading = (None, inputMessage)) ∧
  (loading = false → trim inputMessage ≠ "" →
   handleSubmit trim inputMessage loading = (Some (trim inputMessage), "")) ∧
  (∀ message inputMessage',
     handleSubmit trim inputMessage loading = (Some message, inputMessage') →
     loading = false ∧ message = trim inputMessage ∧ message ≠ "" ∧
     inputMessage' = "") ∧
  (∀ inputMessage',
     handleSubmit trim inputMessage loading = (None, inputMessage') →
     inputMessage' = inputMessage ∧ (loading = true ∨ trim inputMessage = "")).
Proof.
  unfold handleSubmit. split; [|split; [|split]].
  - intros [-> | ->]; [by rewrite andb_false_r|done].
  - intros -> Hne. by rewrite bool_decide_eq_false_2.
  - intros message inputMessage'. case_bool_decide as Hne; simpl; [done|].
    destruct loading; simpl; [done|]. by intros [= <- <-].
  - intros inputMessage'. case_bool_decide as Hne; simpl.
    + intros [= <-]. auto.
    + destruct loading; simpl; [|done]. intros [= <-]. auto.
Qed.

(** X20: at most one chat request is under way. Once a message has been
    sent the loading flag is set, and until the request settles neither the
    submit handler nor a suggested question sends another one; once it has
    settled, with whatever outcome, an input whose trimmed form is not empty
    is sent again, in its trimmed form, and a suggested question is sent if a
    document is ready. This holds for every trimming function. *)
Theorem one_chat_request_at_a_time (trim : string → string)
    message now prev inputMessage question r now' :
  isLoading (sendUserMessage message now prev) = true ∧
  handleSubmit trim inputMessage (isLoading (sendUserMessage message now prev))
  = (None, inputMessage) ∧
  handleSuggestedQuestion question (isLoading (sendUserMessage message now prev))
    (hasDocuments (sendUserMessage message now prev)) = None ∧
  (trim inputMessage ≠ "" →
   handleSubmit trim inputMessage
     (isLoading (chatSettled r now' (sendUserMessage message now prev)))
   = (Some (trim inputMessage), "")) ∧
  (hasDocuments prev = true →
   handleSuggestedQuestion question
     (isLoading (chatSettled r now' (sendUserMessage message now prev)))
     (hasDocuments (chatSettled r now' (sendUserMessage message now prev)))
   = Some question).
Proof.
  assert (Hsettled : isLoading (chatSettled r now' (sendUserMessage message now prev))
                     = false).
  { destruct r as [|ok [result|]]; simpl; try done.
    by destruct (ok && cr_success result). }
  assert (Hdocs : documents (chatSettled r now' (sendUserMessage message now prev))
                  = documents prev).
  { destruct r as [|ok [result|]]; simpl; try done.
    by destruct (ok && cr_success result). }
  split; [done|]. split; [|split; [done|split]].
  - unfold handleSubmit. simpl. by rewrite andb_false_r.
  - intros Hne. unfold handleSubmit. rewrite Hsettled.
    by rewrite bool_decide_eq_false_2.
  - intros Hhas. unfold handleSuggestedQuestion, hasDocuments in *.
    by rewrite Hsettled, Hdocs, Hhas.
Qed.

(** ** Lower case *)

Lemma toLowerCase_app a b : toLowerCase (a +:+ b) = toLowerCase a +:+ toLowerCase b.
Proof. induction a as [|c a IH]; simpl; [done|]. by rewrite IH. Qed.

(** A cut of the lower-case form comes from a cut of the string. *)
Lemma toLowerCase_split s x y :
  toLowerCase s = x +:+ y →
  ∃ a b, s = a +:+ b ∧ toLowerCase a = x ∧ toLowerCase b = y.
Proof.
  revert s. induction x as [|c x IH]; intros s H; simpl in H.
  - by exists "", s.
  - destruct s as [|d s]; [done|]. simpl in H. injection H as Hc H.
    destruct (IH s H) as (a & b & -> & Ha & Hb).
    exists (String d a), b. simpl. by rewrite Hc, Ha.
Qed.

(** ** Searching the sources *)

Lemma includes_empty s : includes s "" = true.
Proof. by destruct s. Qed.

(** X21: for every lower-casing function, the search of the sources panel
    shows only sources of the list, in their order, and shows a source
    exactly when the lower-cased term occurs in its lower-cased document name
    or content. It shows every source when the lower-cased term is empty, two
    terms with the same lower-cased form give the same result, and searching
    the result again with the same term changes nothing. *)
Theorem search_filters_sources (lower : string → string) sources searchTerm :
  filteredSources lower sources searchTerm `sublist_of` sources ∧
  (∀ source, source ∈ filteredSources lower sources searchTerm ↔
     source ∈ sources ∧
     (includes (lower (src_documentName source)) (lower searchTerm) = true ∨
      includes (lower (src_content source)) (lower searchTerm) = true)) ∧
  (lower searchTerm = "" → filteredSources lower sources searchTerm = sources) ∧
  (∀ otherTerm, lower otherTerm = lower searchTerm →
     filteredSources lower sources otherTerm
     = filteredSources lower sources searchTerm) ∧
  filteredSources lower (filteredSources lower sources searchTerm) searchTerm
  = filteredSources lower sources searchTerm.
Proof.
  unfold filteredSources. split; [|split; [|split; [|split]]].
  - induction sources as [|source rest IH]; simpl; [done|].
    destruct (matchesSearch lower searchTerm source); by constructor.
  - intros source. rewrite !list_elem_of_In, filter_In.
    unfold matchesSearch. by rewrite orb_true_iff.
  - intros Hempty. induction sources as [|source rest IH]; [done|].
    simpl. unfold matchesSearch at 1. rewrite Hempty, includes_empty. simpl.
    by rewrite IH.
  - intros otherTerm Hsame. induction sources as [|source rest IH]; simpl; [done|].
    unfold matchesSearch at 1 3. by rewrite Hsame, IH.
  - induction sources as [|source rest IH]; simpl; [done|].
    destruct (matchesSearch lower searchTerm source) eqn:E; simpl; [|done].
    by rewrite E, IH.
Qed.

(** ** Endpoints *)

(** X22: the endpoints of two different documents differ: the status URL
    and the delete URL determine the document id, for every base URL. The
    base URL is never empty, an empty environment variable falls back to the
    default. *)
Theorem endpoints_determine_document env id1 id2 :
  (buildApiUrl env (DOCUMENT_STATUS id1) = buildApiUrl env (DOCUMENT_STATUS id2) →
   id1 = id2) ∧
  (buildApiUrl env (DELETE_DOCUMENT id1) = buildApiUrl env (DELETE_DOCUMENT id2) →
   id1 = id2) ∧
  BASE_URL env ≠ "" ∧
  BASE_URL (Some "") = BASE_URL None.
Proof.
  unfold buildApiUrl, DOCUMENT_STATUS, DELETE_DOCUMENT. split; [|split; [|split]].
  - intros H. apply String.app_inj, String.app_inj in H.
    by apply string_app_inj_r in H.
  - intros H. by apply String.app_inj, String.app_inj in H.
  - unfold BASE_URL, orElse. destruct env as [s|]; [|done].
    by case_bool_decide.
  - done.
Qed.

(** ** The type shown for a document *)

Lemma substring_skip pre s m :
  String.substring (String.length pre) m (pre +:+ s) = String.substring 0 m s.
Proof. induction pre as [|c pre IH]; simpl; [done|]. exact IH. Qed.

Lemma substring_all s : String.substring 0 (String.length s) s = s.
Proof. induction s as [|c s IH]; simpl; [done|]. by rewrite IH. Qed.

Lemma substring_cut s k :
  (k ≤ String.length s)%nat →
  s = String.substring 0 k s +:+ String.substring k (String.length s - k) s.
Proof.
  revert k. induction s as [|c s IH]; intros k Hk; simpl in *.
  - by destruct k.
  - destruct k as [|k]; simpl.
    + by rewrite substring_all.
    + f_equal. apply IH. lia.
Qed.

Lemma endsWith_iff s suffix :
  endsWith s suffix = true ↔ ∃ pre, s = pre +:+ suffix.
Proof.
  unfold endsWith. split.
  - destruct (String.length suffix <=? String.length s)%nat eqn:Elen; [|done].
    apply Nat.leb_le in Elen. intros Heq. apply String.eqb_eq in Heq.
    exists (String.substring 0 (String.length s - String.length suffix) s).
    rewrite <- Heq at 2.
    rewrite (substring_cut s (String.length s - String.length suffix)) at 1 by lia.
    do 2 f_equal. lia.
  - intros [pre ->]. rewrite string_app_length.
    rewrite (proj2 (Nat.leb_le _ _)) by lia.
    replace (String.length pre + String.length suffix - String.length suffix)%nat
      with (String.length pre) by lia.
    rewrite substring_skip, substring_all. apply String.eqb_refl.
Qed.

(** X23: the type shown for a document is read off its name alone: it is
    pdf exactly when the name ends with [.pdf] in any letter case, and txt
    for every other name, whatever the MIME type under which the file was
    accepted. The load mapping and the optimistic entry of an upload agree on
    it. *)
Theorem type_follows_name filename :
  (typeOfName filename = Pdf ↔
   ∃ stem extension, filename = stem +:+ extension ∧ toLowerCase extension = ".pdf") ∧
  (typeOfName filename = Txt ↔
   ∀ stem extension, filename = stem +:+ extension → toLowerCase extension ≠ ".pdf") ∧
  (∀ stamp file, file_name file = filename →
     doc_type (newDocument stamp file) = typeOfName filename) ∧
  (∀ doc, sdoc_filename doc = filename →
     doc_type (ofServerDocument doc) = typeOfName filename).
Proof.
  assert (Hpdf : typeOfName filename = Pdf ↔
            ∃ stem extension, filename = stem +:+ extension ∧
                              toLowerCase extension = ".pdf").
  { unfold typeOfName.
    destruct (endsWith (toLowerCase filename) ".pdf") eqn:E.
    - split; [intros _|done]. apply endsWith_iff in E as [pre Hpre].
      apply toLowerCase_split in Hpre as (a & b & -> & _ & Hb). eauto.
    - split; [done|]. intros (stem & extension & -> & Hext).
      assert (endsWith (toLowerCase (stem +:+ extension)) ".pdf" = true) as Ht.
      { apply endsWith_iff. exists (toLowerCase stem).
        by rewrite toLowerCase_app, Hext. }
      congruence. }
  split; [exact Hpdf|]. split; [|split].
  - split.
    + intros Htxt stem extension Hname Hext.
      assert (typeOfName filename = Pdf) by (apply Hpdf; eauto). congruence.
    + intros Hnone. destruct (typeOfName filename) eqn:E; [|done].
      destruct (proj1 Hpdf eq_refl) as (stem & extension & Hname & Hext).
      by destruct (Hnone stem extension).
  - by intros stamp file <-.
  - by intros doc <-.
Qed.

(** ** The last status wins *)

(** X24: what a document shows after successful ticks depends on the last
    status fetched only: a second tick for the same id overwrites what the
    first one wrote, whatever that was, and the same status fetched twice
    gives the same state as fetched once. *)
Theorem poll_last_status_wins documentId sd1 sd2 prev pollCount1 pollCount2 :
  (poll documentId (HttpResponse true (Some sd2))
     (poll documentId (HttpResponse true (Some sd1)) prev pollCount1).1.1
     pollCount2).1.1
  = (poll documentId (HttpResponse true (Some sd2)) prev pollCount2).1.1 ∧
  (poll documentId (HttpResponse true (Some sd1))
     (poll documentId (HttpResponse true (Some sd1)) prev pollCount1).1.1
     pollCount2).1.1
  = (poll documentId (HttpResponse true (Some sd1)) prev pollCount1).1.1 ∧
  (∀ d, d ∈ documents
              (poll documentId (HttpResponse true (Some sd2))
                 (poll documentId (HttpResponse true (Some sd1)) prev pollCount1).1.1
                 pollCount2).1.1 →
        doc_id d = documentId →
        doc_status d = sd_status sd2 ∧ doc_error d = sd_error sd2 ∧
        doc_progress d = Some (if bool_decide (sd_status sd2 = Ready) then 100 else 75)).
Proof.
  rewrite !poll_ok_state, !applyStatus_overwrite. split; [done|]. split; [done|].
  intros d Hd Hid. simpl in Hd.
  apply list_elem_of_fmap in Hd as (d0 & -> & _).
  rewrite updateDocStatus_id in Hid. unfold updateDocStatus.
  by rewrite bool_decide_eq_true_2.
Qed.
